(** * Hawser: the standard-mode proxy and the tunnel message protocol

    A shallow embedding of [internal/server] (the standard-mode HTTP
    proxy: header filtering, streaming classification, stream relay,
    health endpoint, token gate) and of [internal/protocol] (the tunnel
    message structs with their JSON field tags), with the properties
    the specification states about them. *)

From Stdlib Require Import ZArith Ascii String Bool Lia List PrimFloat.
From stdpp Require Import base tactics option list gmap strings fin_maps sorting.
From Equations Require Import Equations.

(** ** Go's [strings] package, on byte strings

    A Go string is a sequence of bytes; [string] (a list of 8-bit
    [ascii]) is the same data. *)

Module GoStrings.

(** [strings.HasPrefix(s, prefix)] *)
Fixpoint HasPrefix (s prefix : string) {struct prefix} : bool :=
  match prefix with
  | EmptyString => true
  | String c prefix' =>
      match s with
      | EmptyString => false
      | String d s' => Ascii.eqb d c && HasPrefix s' prefix'
      end
  end.

(** [strings.Contains(s, substr)]: [substr] occurs at some offset of [s]
    (the empty string occurs at offset 0 of every string). *)
Fixpoint Contains (s substr : string) : bool :=
  HasPrefix s substr ||
  match s with
  | EmptyString => false
  | String _ s' => Contains s' substr
  end.

(** [s[n:]] for [n <= len(s)] *)
Fixpoint slice_from (n : nat) (s : string) : string :=
  match n, s with
  | O, _ => s
  | S n', String _ s' => slice_from n' s'
  | S _, EmptyString => EmptyString
  end.

(** [s[:n]] for [n <= len(s)] *)
Fixpoint slice_to (n : nat) (s : string) : string :=
  match n, s with
  | S n', String c s' => String c (slice_to n' s')
  | _, _ => EmptyString
  end.

(** [strings.HasSuffix(s, suffix)]:
    [len(s) >= len(suffix) && s[len(s)-len(suffix):] == suffix] *)
Definition HasSuffix (s suffix : string) : bool :=
  (String.length suffix <=? String.length s)%nat &&
  String.eqb (slice_from (String.length s - String.length suffix) s) suffix.

(** What the three functions decide, stated without them. *)
Definition starts_with (s p : string) : Prop := exists t, s = p +:+ t.
Definition occurs_in (sub s : string) : Prop := exists a b, s = a +:+ sub +:+ b.
Definition ends_with (s suf : string) : Prop := exists a, s = a +:+ suf.

End GoStrings.

(** ** Streaming classification ([isStreamingRequest]) *)

Definition isStreamingRequest (path method : string) : bool :=
  (* Container logs *)
  if GoStrings.Contains path "/logs" && String.eqb method "GET" then true
  (* Container attach *)
  else if GoStrings.Contains path "/attach" then true
  (* Exec start with stream *)
  else if GoStrings.Contains path "/exec/" && GoStrings.Contains path "/start" then true
  (* Events *)
  else if GoStrings.HasSuffix path "/events" then true
  (* Build *)
  else if GoStrings.Contains path "/build" && String.eqb method "POST" then true
  (* Pull/push images *)
  else if (GoStrings.Contains path "/images/create" || GoStrings.Contains path "/images/push")
          && String.eqb method "POST" then true
  else false.

(** ** Case folding ([strings.EqualFold]) and the hop-by-hop table *)

Definition byte (c : ascii) : N := N_of_ascii c.

(** [utf8.RuneSelf]: bytes below it are single-byte (ASCII) characters. *)
Definition RuneSelf : N := 128.

(** What [EqualFold] accepts on ASCII input: equality after mapping
    'A'..'Z' to 'a'..'z', byte by byte. *)
Definition lower (b : N) : N :=
  if ((65 <=? b) && (b <=? 90))%N then (b + 32)%N else b.

Fixpoint bytes (s : string) : list N :=
  match s with
  | EmptyString => []
  | String c s' => byte c :: bytes s'
  end.

Definition is_ascii (s : string) : Prop := Forall (fun b => (b < RuneSelf)%N) (bytes s).

Definition eq_ignore_case (s t : string) : Prop := map lower (bytes s) = map lower (bytes t).

Section Folding.

(** [strings.EqualFold] leaves its ASCII loop at the first position where
    either string has a byte of a multi-byte character, and decides the rest
    with the Unicode case-folding tables. That continuation, applied to the
    two remainders [s[i:]] and [t[i:]], is a parameter here. *)
Variable equalFoldUnicode : string -> string -> bool.

Fixpoint EqualFold (s t : string) {struct s} : bool :=
  match s, t with
  | String sc s', String tc t' =>
      let sr := byte sc in
      let tr := byte tc in
      if (RuneSelf <=? N.lor sr tr)%N then equalFoldUnicode s t
      else if (tr =? sr)%N then EqualFold s' t'
      else
        (* Make sr < tr to simplify what follows. *)
        let '(sr, tr) := if (tr <? sr)%N then (tr, sr) else (sr, tr) in
        (* ASCII only, sr/tr must be upper/lower case *)
        if ((65 <=? sr) && (sr <=? 90) && (tr =? sr + 97 - 65))%N then EqualFold s' t'
        else false
  | EmptyString, EmptyString => true   (* len(s) == len(t) *)
  | _, _ => false
  end.

Definition hopByHop : list string :=
  [ "Connection"; "Keep-Alive"; "Proxy-Authenticate"; "Proxy-Authorization";
    "Te"; "Trailers"; "Transfer-Encoding"; "Upgrade" ].

(** [isHopByHopHeader]: true at the first table entry that folds equal. *)
Definition isHopByHopHeader (header : string) : bool :=
  existsb (fun h => EqualFold header h) hopByHop.

End Folding.

(** ** The values of [net/http] and [io] the handlers work on *)

(** [http.Header] and [url.Values]: a map from a name to its values. *)
Abbreviation Header := (gmap string (list string)).

(** The error of a [Read]: [io.EOF], or any other error with its message. *)
Inductive ReadError : Type :=
| EOF
| ReadFailed (msg : string).

(** An [io.Reader] is given by what it has left to deliver: each step is
    the data of one underlying read and the error, if any, that arrives
    with its last byte. A reader with nothing left reports [io.EOF]. *)
Record ReadStep : Type := { rs_data : string; rs_err : option ReadError }.

Abbreviation Reader := (list ReadStep).

(** [n, err := body.Read(buf)] with [len(buf) = size]: at most [size] bytes
    of the current step; what does not fit stays for the next call. *)
Definition Read (size : nat) (body : Reader) : string * option ReadError * Reader :=
  match body with
  | [] => (EmptyString, Some EOF, [])
  | st :: rest =>
      if (String.length (rs_data st) <=? size)%nat then (rs_data st, rs_err st, rest)
      else (GoStrings.slice_to size (rs_data st), None,
            {| rs_data := GoStrings.slice_from size (rs_data st); rs_err := rs_err st |} :: rest)
  end.

(** What a reader delivers up to and including its first error, and that
    error ([io.EOF] when the steps run out). *)
Fixpoint delivered (body : Reader) : string :=
  match body with
  | [] => EmptyString
  | st :: rest =>
      match rs_err st with
      | Some _ => rs_data st
      | None => rs_data st +:+ delivered rest
      end
  end.

Fixpoint final_error (body : Reader) : ReadError :=
  match body with
  | [] => EOF
  | st :: rest =>
      match rs_err st with
      | Some e => e
      | None => final_error rest
      end
  end.

Fixpoint reader_weight (body : Reader) : nat :=
  match body with
  | [] => 0
  | st :: rest => S (String.length (rs_data st)) + reader_weight rest
  end.

(** What reaches the body of the reply, in order. *)
Inductive WriterOp : Type :=
| OpWrite (data : string)   (* w.Write(data) *)
| OpFlush                   (* flusher.Flush() *)
| OpCopy (data : string).   (* io.Copy(w, src), with the bytes it moved *)

(** An [http.ResponseWriter]: the header map, the status line once it is
    written, the body operations so far, and whether the writer's dynamic
    type implements [http.Flusher]. *)
Record ResponseWriter : Type := {
  w_header : Header;
  w_status : option Z;
  w_ops : list WriterOp;
  w_flusher : bool
}.

Definition newResponseWriter (flusher : bool) : ResponseWriter :=
  {| w_header := ∅; w_status := None; w_ops := []; w_flusher := flusher |}.

(** [w.WriteHeader(code)]: the first call fixes the status; later calls are
    ignored. (The codes here are those of HTTP replies, 100 to 999.) *)
Definition WriteHeader (w : ResponseWriter) (code : Z) : ResponseWriter :=
  match w_status w with
  | Some _ => w
  | None => {| w_header := w_header w; w_status := Some code;
               w_ops := w_ops w; w_flusher := w_flusher w |}
  end.

Definition StatusOK : Z := 200.
Definition StatusMovedPermanently : Z := 301.
Definition StatusUnauthorized : Z := 401.
Definition StatusBadGateway : Z := 502.
Definition StatusServiceUnavailable : Z := 503.

Definition add_op (w : ResponseWriter) (op : WriterOp) : ResponseWriter :=
  {| w_header := w_header w; w_status := w_status w;
     w_ops := w_ops w ++ [op]; w_flusher := w_flusher w |}.

(** [w.Write(data)]: sends the status 200 first if none was written. *)
Definition Write (w : ResponseWriter) (data : string) : ResponseWriter :=
  add_op (WriteHeader w StatusOK) (OpWrite data).

Definition Flush (w : ResponseWriter) : ResponseWriter :=
  add_op (WriteHeader w StatusOK) OpFlush.

(** [io.Copy(w, src)]: moves what [src] delivers until [io.EOF] or an error,
    through [w.Write] when there is anything to move; the handlers drop its
    results. *)
Definition io_Copy (w : ResponseWriter) (src : Reader) : ResponseWriter :=
  let data := delivered src in
  add_op (if String.eqb data EmptyString then w else WriteHeader w StatusOK) (OpCopy data).

Definition set_header (w : ResponseWriter) (h : Header) : ResponseWriter :=
  {| w_header := h; w_status := w_status w; w_ops := w_ops w; w_flusher := w_flusher w |}.

(** The bytes of the reply body. *)
Fixpoint body_bytes (ops : list WriterOp) : string :=
  match ops with
  | [] => EmptyString
  | OpWrite d :: ops' => d +:+ body_bytes ops'
  | OpCopy d :: ops' => d +:+ body_bytes ops'
  | OpFlush :: ops' => body_bytes ops'
  end.

(** What the handlers do besides writing the reply. *)
Inductive Event : Type :=
| EvLog (line : string)
| EvRequestRaw (method uri : string) (headers : gmap string string)
| EvPing
| EvGetVersion
| EvBodyClose.

Definition inspect {A : Type} (a : A) : { b : A | a = b } := exist _ a eq_refl.

Definition newline : string := String "010"%char EmptyString.
Definition dquote : string := String "034"%char EmptyString.

(** ** The standard-mode server ([internal/server]) *)

(** The fields of [*http.Request] the handlers read; [URL_RequestURI] and
    [URL_Query] are [r.URL.RequestURI()] and [r.URL.Query()]. *)
Record Request : Type := {
  Method : string;
  URL_Path : string;
  URL_RequestURI : string;
  URL_Query : Header;
  Req_Header : Header;
  Req_Body : Reader
}.

(** The daemon's reply to [RequestRaw]. *)
Record Response : Type := {
  StatusCode : Z;
  Resp_Header : Header;
  Resp_Body : Reader
}.

(** The daemon collaborator ([docker.Client]): each call either fails with
    an error, given by its message ([err.Error()]), or succeeds. *)
Record Client : Type := {
  (* RequestRaw(ctx, method, path, headers, body): the reply, or the error *)
  RequestRaw : string -> string -> gmap string string -> Reader -> Response + string;
  (* Ping(ctx): the error, or None for nil *)
  Ping : option string;
  (* GetVersion(ctx): the daemon's version string, when it answers *)
  GetVersion : option string
}.

Record Config : Type := {
  Token : string;
  AgentID : string;
  AgentName : string
}.

Record Server : Type := {
  cfg : Config;
  dockerClient : Client
}.

(** A handler transforms the reply under construction and appends to the
    trace of daemon calls and log lines. *)
Definition Handler : Type := ResponseWriter -> Request -> list Event -> ResponseWriter * list Event.

(** An answer [http.ServeMux] gives by itself, without calling a handler:
    the status, what it does to the header map, and the body if it
    writes one. *)
Record MuxReply : Type := {
  mr_code : Z;
  mr_header : Header -> Header;
  mr_body : option string
}.

Definition muxReply (w : ResponseWriter) (reply : MuxReply) : ResponseWriter :=
  let w := WriteHeader (set_header w (mr_header reply (w_header w))) (mr_code reply) in
  match mr_body reply with
  | Some body => Write w body
  | None => w
  end.

Section Server.

Variable equalFoldUnicode : string -> string -> bool.

(** [textproto.CanonicalMIMEHeaderKey], which [Header.Get], [Header.Set] and
    [Header.Add] apply to the name they are given. *)
Variable CanonicalMIMEHeaderKey : string -> string.

(** The text of [time.Since(start)] in the closing log line. *)
Variable elapsed : string.

Definition Header_Get (h : Header) (key : string) : string :=
  match h !! CanonicalMIMEHeaderKey key with
  | Some (v :: _) => v
  | _ => EmptyString
  end.

Definition Header_Set (h : Header) (key value : string) : Header :=
  <[CanonicalMIMEHeaderKey key := [value]]> h.

Definition Header_Add (h : Header) (key value : string) : Header :=
  <[CanonicalMIMEHeaderKey key := default [] (h !! CanonicalMIMEHeaderKey key) ++ [value]]> h.

(** [url.Values.Get] *)
Definition Values_Get (v : Header) (key : string) : string :=
  match v !! key with
  | Some (x :: _) => x
  | _ => EmptyString
  end.

(** [http.Error(w, error, code)] *)
Definition http_Error (w : ResponseWriter) (error : string) (code : Z) : ResponseWriter :=
  let h := Header_Set (w_header w) "Content-Type" "text/plain; charset=utf-8" in
  let h := Header_Set h "X-Content-Type-Options" "nosniff" in
  let w := WriteHeader (set_header w h) code in
  Write w (error +:+ newline).

(** The loop over [r.Header] in [handleProxy], one entry at a time. *)
Definition forwardEntry (headers : gmap string string) (entry : string * list string)
  : gmap string string :=
  let '(key, values) := entry in
  if (0 <? length values)%nat && negb (isHopByHopHeader equalFoldUnicode key)
  then <[key := nth 0 values EmptyString]> headers
  else headers.

Definition forwardHeaders (entries : list (string * list string)) : gmap string string :=
  foldl forwardEntry ∅ entries.

(** What one header of the request contributes to the forwarded map. *)
Definition forwarded_value (key : string) (values : list string) : option string :=
  if isHopByHopHeader equalFoldUnicode key then None else head values.

(** The loops over [resp.Header] and over the values of each name. *)
Definition copyEntry (h : Header) (entry : string * list string) : Header :=
  let '(key, values) := entry in
  foldl (fun h value => Header_Add h key value) h values.

Definition copyHeaders (entries : list (string * list string)) (h : Header) : Header :=
  foldl copyEntry h entries.

Definition bufSize : nat := 4096.

(** The calls of [streamResponse]'s loop, in the order the code makes
    them. *)
Inductive LoopStep : Type :=
| StepRead (data : string) (err : option ReadError)   (* n, err := body.Read(buf) *)
| StepWrite (data : string)                           (* w.Write(buf[:n]) *)
| StepFlush                                           (* flusher.Flush() *)
| StepLog (line : string).                            (* log.Printf(...) *)

(** The state of the loop: the writer, what is left of the body, the log
    lines, and the calls made so far. *)
Record LoopState : Type := {
  ls_w : ResponseWriter;
  ls_body : Reader;
  ls_tr : list Event;
  ls_steps : list LoopStep
}.

Definition startLoop (w : ResponseWriter) (body : Reader) (tr : list Event) : LoopState :=
  {| ls_w := w; ls_body := body; ls_tr := tr; ls_steps := [] |}.

Definition loopResult (st : LoopState) : ResponseWriter * list Event := (ls_w st, ls_tr st).

(** [n, err := body.Read(buf)] *)
Definition bodyRead (st : LoopState) : string * option ReadError * LoopState :=
  let '(chunk, err, body') := Read bufSize (ls_body st) in
  (chunk, err,
   {| ls_w := ls_w st; ls_body := body'; ls_tr := ls_tr st;
      ls_steps := ls_steps st ++ [StepRead chunk err] |}).

(** [w.Write(buf[:n])] *)
Definition loopWrite (st : LoopState) (data : string) : LoopState :=
  {| ls_w := Write (ls_w st) data; ls_body := ls_body st; ls_tr := ls_tr st;
     ls_steps := ls_steps st ++ [StepWrite data] |}.

(** [flusher.Flush()] *)
Definition loopFlush (st : LoopState) : LoopState :=
  {| ls_w := Flush (ls_w st); ls_body := ls_body st; ls_tr := ls_tr st;
     ls_steps := ls_steps st ++ [StepFlush] |}.

(** [log.Printf] *)
Definition loopLog (st : LoopState) (line : string) : LoopState :=
  {| ls_w := ls_w st; ls_body := ls_body st; ls_tr := ls_tr st ++ [EvLog line];
     ls_steps := ls_steps st ++ [StepLog line] |}.

(** [if n > 0 { w.Write(buf[:n]); flusher.Flush() }] *)
Definition writeChunk (st : LoopState) (chunk : string) : LoopState :=
  if (0 <? String.length chunk)%nat then loopFlush (loopWrite st chunk) else st.

(** [if err != io.EOF { log.Printf("Stream error: %v", err) }] *)
Definition logStreamError (e : ReadError) (st : LoopState) : LoopState :=
  match e with
  | EOF => st
  | ReadFailed msg => loopLog st ("Stream error: " +:+ msg)
  end.

(** The read loop of [streamResponse]. *)
Equations? streamLoop (st : LoopState) : LoopState by wf (reader_weight (ls_body st)) lt :=
streamLoop st with inspect (bodyRead st) := {
  | exist _ (chunk, Some e, st1) _ => logStreamError e (writeChunk st1 chunk);
  | exist _ (chunk, None, st1) Hread => streamLoop (writeChunk st1 chunk) }.
Proof.
  (* a read without error consumed a step, or a full buffer of one *)
  clear streamLoop.
  assert (Hbody : ls_body (writeChunk st1 chunk) = ls_body st1).
  { unfold writeChunk. destruct (0 <? String.length chunk)%nat; reflexivity. }
  rewrite Hbody. clear Hbody. revert Hread. unfold bodyRead.
  remember bufSize as size eqn:Hsize. unfold bufSize in Hsize.
  destruct (ls_body st) as [|step rest]; unfold Read.
  - intros [= _ _]. 
  - destruct (String.length (rs_data step) <=? size)%nat eqn:Hle.
    + intros [= _ _ <-]. simpl. lia.
    + intros [= _ <-]. simpl. apply Nat.leb_gt in Hle.
      assert (Hcut : forall (n : nat) (s : string), (n < String.length s)%nat ->
                (String.length (GoStrings.slice_from (S n) s) < String.length s)%nat).
      { induction n as [|n IH]; intros [|c s]; simpl; try lia.
        intros Hl. specialize (IH s ltac:(lia)). simpl in IH. lia. }
      subst size. specialize (Hcut 4095%nat (rs_data step) ltac:(lia)). lia.
Qed.

(** [streamResponse] *)
Definition streamResponse (w : ResponseWriter) (body : Reader) (tr : list Event)
  : ResponseWriter * list Event :=
  if negb (w_flusher w) then (io_Copy w body, tr)
  else loopResult (streamLoop (startLoop w body tr)).

(** [handleProxy]: the daemon call, then the reply. The deferred
    [resp.Body.Close()] runs when the handler returns, on every path after
    the daemon call succeeded. *)
Definition handleProxy (s : Server) : Handler := fun w r tr =>
  (* Build headers for Docker request *)
  let headers := forwardHeaders (map_to_list (Req_Header r)) in
  (* Make request to Docker *)
  let tr := tr ++ [EvRequestRaw (Method r) (URL_RequestURI r) headers] in
  match RequestRaw (dockerClient s) (Method r) (URL_RequestURI r) headers (Req_Body r) with
  | inr err =>
      let tr := tr ++ [EvLog ("Docker request failed: " +:+ err)] in
      (http_Error w ("Docker request failed: " +:+ err) StatusBadGateway, tr)
  | inl resp =>
      (* Copy response headers *)
      let w := set_header w (copyHeaders (map_to_list (Resp_Header resp)) (w_header w)) in
      (* Write status code *)
      let w := WriteHeader w (StatusCode resp) in
      (* Check if this is a streaming response *)
      let '(w, tr) :=
        if isStreamingRequest (URL_Path r) (Method r)
        then streamResponse w (Resp_Body resp) tr
        else (io_Copy w (Resp_Body resp), tr) in
      (w, tr ++ [EvBodyClose])
  end.

(** The result of the daemon call [handleProxy] makes for a request. *)
Definition daemon_call (s : Server) (r : Request) : Response + string :=
  RequestRaw (dockerClient s) (Method r) (URL_RequestURI r)
             (forwardHeaders (map_to_list (Req_Header r))) (Req_Body r).

Definition healthyBody : string :=
  "{" +:+ dquote +:+ "status" +:+ dquote +:+ ":" +:+ dquote +:+ "healthy" +:+ dquote +:+ "}".

(** [handleHealth] *)
Definition handleHealth (s : Server) : Handler := fun w r tr =>
  (* Check Docker connectivity *)
  let tr := tr ++ [EvPing] in
  match Ping (dockerClient s) with
  | Some err => (http_Error w ("Docker unhealthy: " +:+ err) StatusServiceUnavailable, tr)
  | None =>
      let w := set_header w (Header_Set (w_header w) "Content-Type" "application/json") in
      (Write w healthyBody, tr)
  end.

Definition json_field (name value : string) : string :=
  dquote +:+ name +:+ dquote +:+ ":" +:+ dquote +:+ value +:+ dquote.

(** [handleInfo] *)
Definition handleInfo (s : Server) : Handler := fun w r tr =>
  let tr := tr ++ [EvGetVersion] in
  let dockerVersion := default "unknown" (GetVersion (dockerClient s)) in
  let w := set_header w (Header_Set (w_header w) "Content-Type" "application/json") in
  (Write w ("{" +:+ json_field "agentId" (AgentID (cfg s)) +:+ ","
                +:+ json_field "agentName" (AgentName (cfg s)) +:+ ","
                +:+ json_field "dockerVersion" dockerVersion +:+ ","
                +:+ json_field "mode" "standard" +:+ "}"), tr).

(** [authMiddleware] *)
Definition authMiddleware (s : Server) (next : Handler) : Handler := fun w r tr =>
  (* Skip auth for health endpoint *)
  if String.eqb (URL_Path r) "/_hawser/health" then next w r tr
  (* If token is configured, require it *)
  else if negb (String.eqb (Token (cfg s)) EmptyString) then
    let token := Header_Get (Req_Header r) "X-Hawser-Token" in
    let token := if String.eqb token EmptyString
                 then Values_Get (URL_Query r) "token" else token in
    if negb (String.eqb token (Token (cfg s)))
    then (http_Error w "Unauthorized" StatusUnauthorized, tr)
    else next w r tr
  else next w r tr.

(** [loggingMiddleware] *)
Definition loggingMiddleware (s : Server) (next : Handler) : Handler := fun w r tr =>
  let tr := tr ++ [EvLog ("--> " +:+ Method r +:+ " " +:+ URL_Path r)] in
  let '(w, tr) := next w r tr in
  (w, tr ++ [EvLog ("<-- " +:+ Method r +:+ " " +:+ URL_Path r +:+ " (" +:+ elapsed +:+ ")")]).

(** The requests [http.ServeMux] answers by itself: a request whose path
    is not in canonical form (a doubled slash, a [.] or [..] element) is
    redirected with 301 Moved Permanently to the cleaned path and no
    handler is called. Which requests these are, and what they are
    answered, is decided inside [net/http]. *)
Variable muxOwn : Request -> option MuxReply.

(** The [http.ServeMux] of [Run] with its three patterns: the two exact
    paths, which are in canonical form, and "/" for every other request
    that the mux does not answer by itself. *)
Definition mux (s : Server) : Handler := fun w r tr =>
  if String.eqb (URL_Path r) "/_hawser/health" then handleHealth s w r tr
  else if String.eqb (URL_Path r) "/_hawser/info" then handleInfo s w r tr
  else match muxOwn r with
       | Some reply => (muxReply w reply, tr)
       | None => handleProxy s w r tr
       end.

(** The handler [Run] installs, and one request served by it on a fresh
    writer. *)
Definition Run_handler (s : Server) : Handler :=
  loggingMiddleware s (authMiddleware s (mux s)).

Definition serve (s : Server) (flusher : bool) (r : Request) : ResponseWriter * list Event :=
  Run_handler s (newResponseWriter flusher) r [].

End Server.

(** * The tunnel message protocol ([internal/protocol])

    The ten message structs with their JSON field tags, and what
    [json.Marshal] and [json.Unmarshal] make of them. A JSON text is taken
    by the document it denotes: the printing and parsing of documents is
    [encoding/json]'s and is not modelled, except for what it does to the
    values: a string is written with every byte that is not part of
    well-formed UTF-8 replaced by U+FFFD, the keys of a map are written in
    sorted order, and a member is matched to a field by its name up to the
    case of letters. *)

Module protocol.

#[local] Set Warnings "-register-all".

(** A JSON document: the values a JSON text denotes, a number with the
    Go type that wrote it. [JBase64 data] is the string that holds the
    base64 text of [data] (a [[]byte] field); [JRaw text] is a value kept
    by its text (a [json.RawMessage] field). *)
Inductive json : Type :=
| JNull
| JBool (b : bool)
| JInt (z : Z)
| JFloat (f : float)
| JString (s : string)
| JBase64 (data : string)
| JRaw (text : string)
| JArray (items : list json)
| JObject (members : list (string * json)).

Definition ProtocolVersion : string := "1.0".

Definition TypeHello : string := "hello".
Definition TypeWelcome : string := "welcome".
Definition TypeRequest : string := "request".
Definition TypeResponse : string := "response".
Definition TypeStream : string := "stream".
Definition TypeStreamEnd : string := "stream_end".
Definition TypeMetrics : string := "metrics".
Definition TypePing : string := "ping".
Definition TypePong : string := "pong".
Definition TypeError : string := "error".

(** The structs. A slice, a map and a raw message are [None] when nil. An
    [int], [int64] or [uint64] field is an integer of that range. *)
Record BaseMessage : Type := { Base_Type : string }.

Record HelloMessage : Type := {
  Hello_Type : string;
  Hello_Version : string;
  Hello_AgentID : string;
  Hello_AgentName : string;
  Hello_Token : string;
  Hello_DockerVersion : string;
  Hello_Hostname : string;
  Hello_Capabilities : option (list string)
}.

Record WelcomeMessage : Type := {
  Welcome_Type : string;
  Welcome_EnvironmentID : Z;
  Welcome_Message : string
}.

Record RequestMessage : Type := {
  Request_Type : string;
  Request_RequestID : string;
  Request_Method : string;
  Request_Path : string;
  Request_Headers : option (gmap string string);
  Request_Body : option string;
  Request_Streaming : bool
}.

Record ResponseMessage : Type := {
  Response_Type : string;
  Response_RequestID : string;
  Response_StatusCode : Z;
  Response_Headers : option (gmap string string);
  Response_Body : option string
}.

Record StreamMessage : Type := {
  Stream_Type : string;
  Stream_RequestID : string;
  Stream_Data : option string;
  Stream_Stream : string
}.

Record StreamEndMessage : Type := {
  StreamEnd_Type : string;
  StreamEnd_RequestID : string;
  StreamEnd_Reason : string
}.

Record HostMetrics : Type := {
  CPUUsage : float;
  CPUCores : Z;
  MemoryTotal : Z;
  MemoryUsed : Z;
  MemoryFree : Z;
  DiskTotal : Z;
  DiskUsed : Z;
  DiskFree : Z;
  NetworkRxBytes : Z;
  NetworkTxBytes : Z
}.

Record MetricsMessage : Type := {
  Metrics_Type : string;
  Metrics_Timestamp : Z;
  Metrics_Metrics : HostMetrics
}.

Record PingMessage : Type := { Ping_Type : string; Ping_Timestamp : Z }.

Record PongMessage : Type := { Pong_Type : string; Pong_Timestamp : Z }.

Record ErrorMessage : Type := {
  Error_Type : string;
  Error_RequestID : string;
  Error_Error : string;
  Error_Code : string
}.

(** The constructors. *)
Definition NewHelloMessage (agentID agentName token dockerVersion hostname : string)
           (capabilities : option (list string)) : HelloMessage :=
  {| Hello_Type := TypeHello; Hello_Version := ProtocolVersion;
     Hello_AgentID := agentID; Hello_AgentName := agentName; Hello_Token := token;
     Hello_DockerVersion := dockerVersion; Hello_Hostname := hostname;
     Hello_Capabilities := capabilities |}.

Definition NewResponseMessage (requestID : string) (statusCode : Z)
           (headers : option (gmap string string)) (body : option string) : ResponseMessage :=
  {| Response_Type := TypeResponse; Response_RequestID := requestID;
     Response_StatusCode := statusCode; Response_Headers := headers; Response_Body := body |}.

Definition NewStreamMessage (requestID : string) (data : option string) (stream : string)
  : StreamMessage :=
  {| Stream_Type := TypeStream; Stream_RequestID := requestID;
     Stream_Data := data; Stream_Stream := stream |}.

Definition NewStreamEndMessage (requestID reason : string) : StreamEndMessage :=
  {| StreamEnd_Type := TypeStreamEnd; StreamEnd_RequestID := requestID;
     StreamEnd_Reason := reason |}.

Definition NewMetricsMessage (timestamp : Z) (metrics : HostMetrics) : MetricsMessage :=
  {| Metrics_Type := TypeMetrics; Metrics_Timestamp := timestamp; Metrics_Metrics := metrics |}.

Definition NewPingMessage (timestamp : Z) : PingMessage :=
  {| Ping_Type := TypePing; Ping_Timestamp := timestamp |}.

Definition NewPongMessage (timestamp : Z) : PongMessage :=
  {| Pong_Type := TypePong; Pong_Timestamp := timestamp |}.

Definition NewErrorMessage (requestID errorMsg code : string) : ErrorMessage :=
  {| Error_Type := TypeError; Error_RequestID := requestID;
     Error_Error := errorMsg; Error_Code := code |}.

(** ** Strings in a JSON text *)

Definition in_range (lo hi b : N) : bool := ((lo <=? b) && (b <=? hi))%N.

(** The size [utf8.DecodeRuneInString] returns when [s] starts with a
    well-formed UTF-8 sequence, and 0 when it does not (the decoder then
    returns [RuneError], with size 1 unless [s] is empty). *)
Definition rune_size (s : string) : nat :=
  match s with
  | EmptyString => 0
  | String c0 s1 =>
      let b0 := byte c0 in
      if (b0 <? RuneSelf)%N then 1
      else if in_range 194 223 b0 then
        match s1 with
        | String c1 _ => if in_range 128 191 (byte c1) then 2 else 0
        | _ => 0
        end
      else if in_range 224 239 b0 then
        match s1 with
        | String c1 (String c2 _) =>
            let lo := if (b0 =? 224)%N then 160%N else 128%N in
            let hi := if (b0 =? 237)%N then 159%N else 191%N in
            if in_range lo hi (byte c1) && in_range 128 191 (byte c2) then 3 else 0
        | _ => 0
        end
      else if in_range 240 244 b0 then
        match s1 with
        | String c1 (String c2 (String c3 _)) =>
            let lo := if (b0 =? 240)%N then 144%N else 128%N in
            let hi := if (b0 =? 244)%N then 143%N else 191%N in
            if in_range lo hi (byte c1) && in_range 128 191 (byte c2)
               && in_range 128 191 (byte c3)
            then 4 else 0
        | _ => 0
        end
      else 0
  end.

(** U+FFFD in UTF-8 *)
Definition RuneError : string :=
  String (ascii_of_N 239) (String (ascii_of_N 191) (String (ascii_of_N 189) EmptyString)).

(** The string that the text [json.Marshal] writes for [s] denotes: the
    encoder copies each well-formed sequence and writes every other byte
    as U+FFFD. [skip] counts the bytes left of the sequence being copied. *)
Fixpoint coerce_from (skip : nat) (s : string) : string :=
  match s with
  | EmptyString => EmptyString
  | String c s' =>
      match skip with
      | S k => String c (coerce_from k s')
      | O => match rune_size s with
             | O => RuneError +:+ coerce_from 0 s'
             | S k => String c (coerce_from k s')
             end
      end
  end.

Definition coerceUTF8 (s : string) : string := coerce_from 0 s.

(** [utf8.ValidString] *)
Fixpoint valid_from (skip : nat) (s : string) : bool :=
  match s with
  | EmptyString => true
  | String c s' =>
      match skip with
      | S k => valid_from k s'
      | O => match rune_size s with
             | O => false
             | S k => valid_from k s'
             end
      end
  end.

Definition ValidString (s : string) : bool := valid_from 0 s.

(** ** Encoding ([json.Marshal]) *)

Definition enc_string (s : string) : json := JString (coerceUTF8 s).

Definition enc_strings (l : option (list string)) : json :=
  match l with
  | None => JNull
  | Some items => JArray (map enc_string items)
  end.

Definition enc_bytes (d : option string) : json :=
  match d with
  | None => JNull
  | Some data => JBase64 data
  end.

(** A map is written as an object with one member per entry, the entries
    sorted by their keys as byte strings. *)
Definition key_le (a b : string * string) : Prop := String.leb (fst a) (fst b) = true.

#[global] Instance key_le_dec : RelDecision key_le :=
  fun a b => decide (String.leb (fst a) (fst b) = true).

Definition sorted_entries (m : gmap string string) : list (string * string) :=
  merge_sort key_le (map_to_list m).

Definition enc_map (m : gmap string string) : json :=
  JObject (map (fun kv => (coerceUTF8 (fst kv), enc_string (snd kv))) (sorted_entries m)).

(** A member tagged [omitempty] is left out when its value is empty:
    the empty string, or a map or slice of length 0, nil or not. *)
Definition omitempty (name : string) (empty : bool) (v : json) : list (string * json) :=
  if empty then [] else [(name, v)].

Definition omit_string (name value : string) : list (string * json) :=
  omitempty name (String.eqb value EmptyString) (enc_string value).

Definition omit_map (name : string) (m : option (gmap string string)) : list (string * json) :=
  match m with
  | None => []
  | Some entries => omitempty name (bool_decide (entries = ∅)) (enc_map entries)
  end.

Section Marshal.

(** What [Marshal] writes for the text of a [json.RawMessage]: the text
    compacted and HTML-escaped, or an error when it is not valid JSON. *)
Variable compact : string -> option string.

Definition omit_raw (name : string) (raw : option string) : option (list (string * json)) :=
  match raw with
  | None => Some []
  | Some text =>
      if String.eqb text EmptyString then Some []
      else match compact text with
           | Some text' => Some [(name, JRaw text')]
           | None => None
           end
  end.

Definition marshalHello (m : HelloMessage) : json :=
  JObject [ ("type", enc_string (Hello_Type m));
            ("version", enc_string (Hello_Version m));
            ("agentId", enc_string (Hello_AgentID m));
            ("agentName", enc_string (Hello_AgentName m));
            ("token", enc_string (Hello_Token m));
            ("dockerVersion", enc_string (Hello_DockerVersion m));
            ("hostname", enc_string (Hello_Hostname m));
            ("capabilities", enc_strings (Hello_Capabilities m)) ].

Definition marshalWelcome (m : WelcomeMessage) : json :=
  JObject ([ ("type", enc_string (Welcome_Type m));
             ("environmentId", JInt (Welcome_EnvironmentID m)) ]
           ++ omit_string "message" (Welcome_Message m)).

Definition marshalRequest (m : RequestMessage) : option json :=
  body ← omit_raw "body" (Request_Body m);
  Some (JObject ([ ("type", enc_string (Request_Type m));
                   ("requestId", enc_string (Request_RequestID m));
                   ("method", enc_string (Request_Method m));
                   ("path", enc_string (Request_Path m)) ]
                 ++ omit_map "headers" (Request_Headers m)
                 ++ body
                 ++ [ ("streaming", JBool (Request_Streaming m)) ])).

Definition marshalResponse (m : ResponseMessage) : option json :=
  body ← omit_raw "body" (Response_Body m);
  Some (JObject ([ ("type", enc_string (Response_Type m));
                   ("requestId", enc_string (Response_RequestID m));
                   ("statusCode", JInt (Response_StatusCode m)) ]
                 ++ omit_map "headers" (Response_Headers m)
                 ++ body)).

Definition marshalStream (m : StreamMessage) : json :=
  JObject ([ ("type", enc_string (Stream_Type m));
             ("requestId", enc_string (Stream_RequestID m));
             ("data", enc_bytes (Stream_Data m)) ]
           ++ omit_string "stream" (Stream_Stream m)).

Definition marshalStreamEnd (m : StreamEndMessage) : json :=
  JObject ([ ("type", enc_string (StreamEnd_Type m));
             ("requestId", enc_string (StreamEnd_RequestID m)) ]
           ++ omit_string "reason" (StreamEnd_Reason m)).

(** A float that is NaN or infinite has no JSON form: [Marshal] fails. *)
Definition marshalHostMetrics (h : HostMetrics) : option json :=
  if is_finite (CPUUsage h) then
    Some (JObject [ ("cpuUsage", JFloat (CPUUsage h));
                    ("cpuCores", JInt (CPUCores h));
                    ("memoryTotal", JInt (MemoryTotal h));
                    ("memoryUsed", JInt (MemoryUsed h));
                    ("memoryFree", JInt (MemoryFree h));
                    ("diskTotal", JInt (DiskTotal h));
                    ("diskUsed", JInt (DiskUsed h));
                    ("diskFree", JInt (DiskFree h));
                    ("networkRxBytes", JInt (NetworkRxBytes h));
                    ("networkTxBytes", JInt (NetworkTxBytes h)) ])
  else None.

Definition marshalMetrics (m : MetricsMessage) : option json :=
  metrics ← marshalHostMetrics (Metrics_Metrics m);
  Some (JObject [ ("type", enc_string (Metrics_Type m));
                  ("timestamp", JInt (Metrics_Timestamp m));
                  ("metrics", metrics) ]).

Definition marshalPing (m : PingMessage) : json :=
  JObject [ ("type", enc_string (Ping_Type m)); ("timestamp", JInt (Ping_Timestamp m)) ].

Definition marshalPong (m : PongMessage) : json :=
  JObject [ ("type", enc_string (Pong_Type m)); ("timestamp", JInt (Pong_Timestamp m)) ].

Definition marshalError (m : ErrorMessage) : json :=
  JObject ([ ("type", enc_string (Error_Type m)) ]
           ++ omit_string "requestId" (Error_RequestID m)
           ++ [ ("error", enc_string (Error_Error m)) ]
           ++ omit_string "code" (Error_Code m)).

End Marshal.

(** ** Decoding ([json.Unmarshal]) into a zero value *)

Section Unmarshal.

(** [json.Unmarshal] takes a member for a field when its key is the
    field's name or, failing that, folds to the same text as the name
    ([foldName]): ASCII letters are folded to upper case here, and a key is
    folded from its first non-ASCII byte on by the Unicode tables, which
    are a parameter. *)
Variable foldRunes : string -> string.

Definition upper (c : ascii) : ascii :=
  if in_range 97 122 (byte c) then ascii_of_N (byte c - 32) else c.

Fixpoint foldName (s : string) : string :=
  match s with
  | EmptyString => EmptyString
  | String c s' =>
      if (byte c <? RuneSelf)%N then String (upper c) (foldName s') else foldRunes s
  end.

Definition same_name (key name : string) : bool :=
  String.eqb key name || String.eqb (foldName key) (foldName name).

(** The member a field is read from: the last one whose key is taken for
    the field (no two fields of one struct here have names that fold to
    the same text). *)
Definition member (name : string) (members : list (string * json)) : option json :=
  foldl (fun found kv => if same_name (fst kv) name then Some (snd kv) else found)
        None members.

(** A missing member and [null] leave a field at its zero value, and
    [null] for the whole message leaves every field so; a value of another
    kind than the field's is an error ([None]). *)
Definition dec_string (v : option json) : option string :=
  match v with
  | None | Some JNull => Some EmptyString
  | Some (JString s) => Some s
  | Some _ => None
  end.

Definition dec_bool (v : option json) : option bool :=
  match v with
  | None | Some JNull => Some false
  | Some (JBool b) => Some b
  | Some _ => None
  end.

Definition dec_int (lo hi : Z) (v : option json) : option Z :=
  match v with
  | None | Some JNull => Some 0%Z
  | Some (JInt z) => if ((lo <=? z) && (z <? hi))%Z then Some z else None
  | Some _ => None
  end.

Definition dec_int64 : option json -> option Z := dec_int (- 2 ^ 63) (2 ^ 63).
Definition dec_uint64 : option json -> option Z := dec_int 0 (2 ^ 64).

Definition dec_float (v : option json) : option float :=
  match v with
  | None | Some JNull => Some zero
  | Some (JFloat f) => Some f
  | Some _ => None
  end.

Definition dec_strings (v : option json) : option (option (list string)) :=
  match v with
  | None | Some JNull => Some None
  | Some (JArray items) => Some <$> mapM (fun j => dec_string (Some j)) items
  | Some _ => None
  end.

(** A plain string for a [[]byte] field is base64 text, which is not
    modelled. *)
Definition dec_bytes (v : option json) : option (option string) :=
  match v with
  | None | Some JNull => Some None
  | Some (JBase64 data) => Some (Some data)
  | Some _ => None
  end.

Definition dec_map (v : option json) : option (option (gmap string string)) :=
  match v with
  | None | Some JNull => Some None
  | Some (JObject members) =>
      Some <$> foldl (fun acc kv =>
                        m ← acc; s ← dec_string (Some (snd kv)); Some (<[fst kv := s]> m))
                     (Some ∅) members
  | Some _ => None
  end.

(** A raw message takes the text of its member, [null] included. (The
    text of a value of another kind is its printed form, not modelled.) *)
Definition dec_raw (v : option json) : option (option string) :=
  match v with
  | None => Some None
  | Some (JRaw text) => Some (Some text)
  | Some JNull => Some (Some "null")
  | Some _ => None
  end.

Definition unmarshalBase (j : json) : option BaseMessage :=
  match j with
  | JObject ms => t ← dec_string (member "type" ms); Some {| Base_Type := t |}
  | JNull => Some {| Base_Type := EmptyString |}
  | _ => None
  end.

(** [ParseMessageType] *)
Definition ParseMessageType (j : json) : option string :=
  Base_Type <$> unmarshalBase j.

Definition unmarshalHello (j : json) : option HelloMessage :=
  match j with
  | JObject ms =>
      t ← dec_string (member "type" ms);
      version ← dec_string (member "version" ms);
      agentId ← dec_string (member "agentId" ms);
      agentName ← dec_string (member "agentName" ms);
      token ← dec_string (member "token" ms);
      dockerVersion ← dec_string (member "dockerVersion" ms);
      hostname ← dec_string (member "hostname" ms);
      capabilities ← dec_strings (member "capabilities" ms);
      Some {| Hello_Type := t; Hello_Version := version; Hello_AgentID := agentId;
              Hello_AgentName := agentName; Hello_Token := token;
              Hello_DockerVersion := dockerVersion; Hello_Hostname := hostname;
              Hello_Capabilities := capabilities |}
  | JNull => Some {| Hello_Type := EmptyString; Hello_Version := EmptyString;
                     Hello_AgentID := EmptyString; Hello_AgentName := EmptyString;
                     Hello_Token := EmptyString; Hello_DockerVersion := EmptyString;
                     Hello_Hostname := EmptyString; Hello_Capabilities := None |}
  | _ => None
  end.

Definition unmarshalWelcome (j : json) : option WelcomeMessage :=
  match j with
  | JObject ms =>
      t ← dec_string (member "type" ms);
      environmentId ← dec_int64 (member "environmentId" ms);
      message ← dec_string (member "message" ms);
      Some {| Welcome_Type := t; Welcome_EnvironmentID := environmentId;
              Welcome_Message := message |}
  | JNull => Some {| Welcome_Type := EmptyString; Welcome_EnvironmentID := 0;
                     Welcome_Message := EmptyString |}
  | _ => None
  end.

Definition unmarshalRequest (j : json) : option RequestMessage :=
  match j with
  | JObject ms =>
      t ← dec_string (member "type" ms);
      requestId ← dec_string (member "requestId" ms);
      method ← dec_string (member "method" ms);
      path ← dec_string (member "path" ms);
      headers ← dec_map (member "headers" ms);
      body ← dec_raw (member "body" ms);
      streaming ← dec_bool (member "streaming" ms);
      Some {| Request_Type := t; Request_RequestID := requestId; Request_Method := method;
              Request_Path := path; Request_Headers := headers; Request_Body := body;
              Request_Streaming := streaming |}
  | JNull => Some {| Request_Type := EmptyString; Request_RequestID := EmptyString;
                     Request_Method := EmptyString; Request_Path := EmptyString;
                     Request_Headers := None; Request_Body := None;
                     Request_Streaming := false |}
  | _ => None
  end.

Definition unmarshalResponse (j : json) : option ResponseMessage :=
  match j with
  | JObject ms =>
      t ← dec_string (member "type" ms);
      requestId ← dec_string (member "requestId" ms);
      statusCode ← dec_int64 (member "statusCode" ms);
      headers ← dec_map (member "headers" ms);
      body ← dec_raw (member "body" ms);
      Some {| Response_Type := t; Response_RequestID := requestId;
              Response_StatusCode := statusCode; Response_Headers := headers;
              Response_Body := body |}
  | JNull => Some {| Response_Type := EmptyString; Response_RequestID := EmptyString;
                     Response_StatusCode := 0; Response_Headers := None;
                     Response_Body := None |}
  | _ => None
  end.

Definition unmarshalStream (j : json) : option StreamMessage :=
  match j with
  | JObject ms =>
      t ← dec_string (member "type" ms);
      requestId ← dec_string (member "requestId" ms);
      data ← dec_bytes (member "data" ms);
      stream ← dec_string (member "stream" ms);
      Some {| Stream_Type := t; Stream_RequestID := requestId;
              Stream_Data := data; Stream_Stream := stream |}
  | JNull => Some {| Stream_Type := EmptyString; Stream_RequestID := EmptyString;
                     Stream_Data := None; Stream_Stream := EmptyString |}
  | _ => None
  end.

Definition unmarshalStreamEnd (j : json) : option StreamEndMessage :=
  match j with
  | JObject ms =>
      t ← dec_string (member "type" ms);
      requestId ← dec_string (member "requestId" ms);
      reason ← dec_string (member "reason" ms);
      Some {| StreamEnd_Type := t; StreamEnd_RequestID := requestId;
              StreamEnd_Reason := reason |}
  | JNull => Some {| StreamEnd_Type := EmptyString; StreamEnd_RequestID := EmptyString;
                     StreamEnd_Reason := EmptyString |}
  | _ => None
  end.

Definition zeroHostMetrics : HostMetrics :=
  {| CPUUsage := zero; CPUCores := 0; MemoryTotal := 0; MemoryUsed := 0; MemoryFree := 0;
     DiskTotal := 0; DiskUsed := 0; DiskFree := 0; NetworkRxBytes := 0; NetworkTxBytes := 0 |}.

Definition unmarshalHostMetrics (v : option json) : option HostMetrics :=
  match v with
  | None | Some JNull => Some zeroHostMetrics
  | Some (JObject ms) =>
      cpuUsage ← dec_float (member "cpuUsage" ms);
      cpuCores ← dec_int64 (member "cpuCores" ms);
      memoryTotal ← dec_uint64 (member "memoryTotal" ms);
      memoryUsed ← dec_uint64 (member "memoryUsed" ms);
      memoryFree ← dec_uint64 (member "memoryFree" ms);
      diskTotal ← dec_uint64 (member "diskTotal" ms);
      diskUsed ← dec_uint64 (member "diskUsed" ms);
      diskFree ← dec_uint64 (member "diskFree" ms);
      networkRxBytes ← dec_uint64 (member "networkRxBytes" ms);
      networkTxBytes ← dec_uint64 (member "networkTxBytes" ms);
      Some {| CPUUsage := cpuUsage; CPUCores := cpuCores; MemoryTotal := memoryTotal;
              MemoryUsed := memoryUsed; MemoryFree := memoryFree; DiskTotal := diskTotal;
              DiskUsed := diskUsed; DiskFree := diskFree;
              NetworkRxBytes := networkRxBytes; NetworkTxBytes := networkTxBytes |}
  | Some _ => None
  end.

Definition unmarshalMetrics (j : json) : option MetricsMessage :=
  match j with
  | JObject ms =>
      t ← dec_string (member "type" ms);
      timestamp ← dec_int64 (member "timestamp" ms);
      metrics ← unmarshalHostMetrics (member "metrics" ms);
      Some {| Metrics_Type := t; Metrics_Timestamp := timestamp; Metrics_Metrics := metrics |}
  | JNull => Some {| Metrics_Type := EmptyString; Metrics_Timestamp := 0;
                     Metrics_Metrics := zeroHostMetrics |}
  | _ => None
  end.

Definition unmarshalPing (j : json) : option PingMessage :=
  match j with
  | JObject ms =>
      t ← dec_string (member "type" ms);
      timestamp ← dec_int64 (member "timestamp" ms);
      Some {| Ping_Type := t; Ping_Timestamp := timestamp |}
  | JNull => Some {| Ping_Type := EmptyString; Ping_Timestamp := 0 |}
  | _ => None
  end.

Definition unmarshalPong (j : json) : option PongMessage :=
  match j with
  | JObject ms =>
      t ← dec_string (member "type" ms);
      timestamp ← dec_int64 (member "timestamp" ms);
      Some {| Pong_Type := t; Pong_Timestamp := timestamp |}
  | JNull => Some {| Pong_Type := EmptyString; Pong_Timestamp := 0 |}
  | _ => None
  end.

Definition unmarshalError (j : json) : option ErrorMessage :=
  match j with
  | JObject ms =>
      t ← dec_string (member "type" ms);
      requestId ← dec_string (member "requestId" ms);
      error ← dec_string (member "error" ms);
      code ← dec_string (member "code" ms);
      Some {| Error_Type := t; Error_RequestID := requestId;
              Error_Error := error; Error_Code := code |}
  | JNull => Some {| Error_Type := EmptyString; Error_RequestID := EmptyString;
                     Error_Error := EmptyString; Error_Code := EmptyString |}
  | _ => None
  end.

End Unmarshal.

End protocol.

(** * Notions the properties are stated with *)

(** The chunks of a relay, each written and flushed in turn. *)
Definition relay (w : ResponseWriter) (chunks : list string) : ResponseWriter :=
  foldl (fun w c => Flush (Write w c)) w chunks.

Definition relay_ops (chunks : list string) : list WriterOp :=
  flat_map (fun c => [OpWrite c; OpFlush]) chunks.

Definition concat_str (chunks : list string) : string :=
  foldr String.append EmptyString chunks.

(** What the calls of the loop leave in the reply and in the log. *)
Definition step_ops (steps : list LoopStep) : list WriterOp :=
  flat_map (fun step => match step with
                        | StepWrite data => [OpWrite data]
                        | StepFlush => [OpFlush]
                        | _ => []
                        end) steps.

Definition step_logs (steps : list LoopStep) : list Event :=
  flat_map (fun step => match step with
                        | StepLog line => [EvLog line]
                        | _ => []
                        end) steps.

Definition stream_log (e : ReadError) : list Event :=
  match e with
  | EOF => []
  | ReadFailed msg => [EvLog ("Stream error: " +:+ msg)]
  end.

(** The relay as the specification describes it, on what is left of the
    daemon's reply. One round reads a chunk of at most 4096 bytes and, when
    the read returned any bytes, writes exactly those bytes and flushes,
    before anything else is done. A read without error is followed by the
    next round; a read that ends the input cleanly ends the relay; a read
    with any other error ends it after one log line. *)
Definition round_writes (chunk : string) : list LoopStep :=
  if (0 <? String.length chunk)%nat then [StepWrite chunk; StepFlush] else [].

Definition error_log (e : ReadError) : list LoopStep :=
  match e with
  | EOF => []
  | ReadFailed msg => [StepLog ("Stream error: " +:+ msg)]
  end.

Inductive relays : Reader -> list LoopStep -> Prop :=
| relays_last (body rest : Reader) (chunk : string) (e : ReadError) :
    Read 4096 body = (chunk, Some e, rest) ->
    relays body (StepRead chunk (Some e) :: round_writes chunk ++ error_log e)
| relays_next (body rest : Reader) (chunk : string) (steps : list LoopStep) :
    Read 4096 body = (chunk, None, rest) ->
    relays rest steps ->
    relays body (StepRead chunk None :: round_writes chunk ++ steps).

Definition in_int64 (z : Z) : Prop := (- 2 ^ 63 <= z < 2 ^ 63)%Z.
Definition in_uint64 (z : Z) : Prop := (0 <= z < 2 ^ 64)%Z.

(** The number fields of a struct are in the range of their Go type. *)
Definition wf_HostMetrics (h : protocol.HostMetrics) : Prop :=
  in_int64 (protocol.CPUCores h) /\
  in_uint64 (protocol.MemoryTotal h) /\ in_uint64 (protocol.MemoryUsed h) /\
  in_uint64 (protocol.MemoryFree h) /\ in_uint64 (protocol.DiskTotal h) /\
  in_uint64 (protocol.DiskUsed h) /\ in_uint64 (protocol.DiskFree h) /\
  in_uint64 (protocol.NetworkRxBytes h) /\ in_uint64 (protocol.NetworkTxBytes h).

(** Strings that are UTF-8 text, in a list, in a map, and in the fields of
    each message struct. *)
Definition utf8 (l : list string) : Prop :=
  Forall (fun s => protocol.ValidString s = true) l.

Definition utf8_entries (m : gmap string string) : Prop :=
  map_Forall (fun k v => protocol.ValidString k = true /\ protocol.ValidString v = true) m.

Definition utf8_map (m : option (gmap string string)) : Prop :=
  forall entries, m = Some entries -> utf8_entries entries.

Definition utf8_Hello (m : protocol.HelloMessage) : Prop :=
  utf8 [ protocol.Hello_Type m; protocol.Hello_Version m; protocol.Hello_AgentID m;
         protocol.Hello_AgentName m; protocol.Hello_Token m;
         protocol.Hello_DockerVersion m; protocol.Hello_Hostname m ] /\
  utf8 (default [] (protocol.Hello_Capabilities m)).

Definition utf8_Welcome (m : protocol.WelcomeMessage) : Prop :=
  utf8 [ protocol.Welcome_Type m; protocol.Welcome_Message m ].

Definition utf8_Request (m : protocol.RequestMessage) : Prop :=
  utf8 [ protocol.Request_Type m; protocol.Request_RequestID m;
         protocol.Request_Method m; protocol.Request_Path m ] /\
  utf8_map (protocol.Request_Headers m).

Definition utf8_Response (m : protocol.ResponseMessage) : Prop :=
  utf8 [ protocol.Response_Type m; protocol.Response_RequestID m ] /\
  utf8_map (protocol.Response_Headers m).

Definition utf8_Stream (m : protocol.StreamMessage) : Prop :=
  utf8 [ protocol.Stream_Type m; protocol.Stream_RequestID m; protocol.Stream_Stream m ].

Definition utf8_StreamEnd (m : protocol.StreamEndMessage) : Prop :=
  utf8 [ protocol.StreamEnd_Type m; protocol.StreamEnd_RequestID m;
         protocol.StreamEnd_Reason m ].

Definition utf8_Error (m : protocol.ErrorMessage) : Prop :=
  utf8 [ protocol.Error_Type m; protocol.Error_RequestID m;
         protocol.Error_Error m; protocol.Error_Code m ].

(** What is left of an [omitempty] map, and of an [omitempty] raw message
    written through [compact], after the member was left out or written. *)
Definition kept_map (m : option (gmap string string)) : option (gmap string string) :=
  match m with
  | None => None
  | Some entries => if bool_decide (entries = ∅) then None else Some entries
  end.

Definition kept_raw (compact : string -> option string) (raw : option string) : option string :=
  match raw with
  | None => None
  | Some text => if String.eqb text EmptyString then None else compact text
  end.

(** A request and a response as they come back: everything as it was,
    except the two [omitempty] members that are not strings. *)
Definition kept_Request (compact : string -> option string) (m : protocol.RequestMessage)
  : protocol.RequestMessage :=
  {| protocol.Request_Type := protocol.Request_Type m;
     protocol.Request_RequestID := protocol.Request_RequestID m;
     protocol.Request_Method := protocol.Request_Method m;
     protocol.Request_Path := protocol.Request_Path m;
     protocol.Request_Headers := kept_map (protocol.Request_Headers m);
     protocol.Request_Body := kept_raw compact (protocol.Request_Body m);
     protocol.Request_Streaming := protocol.Request_Streaming m |}.

Definition kept_Response (compact : string -> option string) (m : protocol.ResponseMessage)
  : protocol.ResponseMessage :=
  {| protocol.Response_Type := protocol.Response_Type m;
     protocol.Response_RequestID := protocol.Response_RequestID m;
     protocol.Response_StatusCode := protocol.Response_StatusCode m;
     protocol.Response_Headers := kept_map (protocol.Response_Headers m);
     protocol.Response_Body := kept_raw compact (protocol.Response_Body m) |}.

(** A map and a raw message come back exactly when [omitempty] and the
    encoder leave them alone. *)
Definition written_as_is (compact : string -> option string)
           (headers : option (gmap string string)) (body : option string) : Prop :=
  headers <> Some ∅ /\
  forall text, body = Some text -> text <> EmptyString /\ compact text = Some text.

(** A request that [authMiddleware] lets through on a path other than the
    health endpoint: no token is configured, or the header carries it, or
    the header is empty and the query parameter carries it. *)
Definition admitted (canon : string -> string) (s : Server) (r : Request) : Prop :=
  Token (cfg s) = EmptyString \/
  Header_Get canon (Req_Header r) "X-Hawser-Token" = Token (cfg s) \/
  (Header_Get canon (Req_Header r) "X-Hawser-Token" = EmptyString /\
   Values_Get (URL_Query r) "token" = Token (cfg s)).

(** The calls on the daemon in a trace. *)
Definition is_daemon_call (e : Event) : bool :=
  match e with
  | EvRequestRaw _ _ _ | EvPing | EvGetVersion => true
  | EvLog _ | EvBodyClose => false
  end.

Definition daemon_calls (tr : list Event) : list Event := List.filter is_daemon_call tr.

(** The header names of a daemon reply are in canonical form, as
    [net/http] delivers them. *)
Definition canonical_names (canon : string -> string) (h : Header) : Prop :=
  forall k, is_Some (h !! k) -> canon k = k.

(** The member names of an encoded message, in order. *)
Definition member_names (j : protocol.json) : list string :=
  match j with
  | protocol.JObject members => map fst members
  | _ => []
  end.

(** A member name as [json.Unmarshal] compares it with a field's name: up
    to the case of ASCII letters. *)
Definition folded (name : string) : list N := map lower (bytes name).

(** An encoding that names its type and has no two members of one name,
    the case of letters left aside. *)
Definition distinct_members (j : protocol.json) : Prop :=
  "type" ∈ member_names j /\ NoDup (map folded (member_names j)).

(** ** Sample values *)

Definition sampleClient : Client :=
  {| RequestRaw := fun _ _ _ _ => inr "no such socket"; Ping := None; GetVersion := None |}.

Definition sampleServer : Server :=
  {| cfg := {| Token := "secret"; AgentID := "agent-1"; AgentName := "host-1" |};
     dockerClient := sampleClient |}.

Definition sampleRequest (method path : string) (header query : Header) : Request :=
  {| Method := method; URL_Path := path; URL_RequestURI := path;
     URL_Query := query; Req_Header := header; Req_Body := [] |}.

Definition sampleRequestMessage (headers : option (gmap string string)) (body : option string)
  : protocol.RequestMessage :=
  {| protocol.Request_Type := protocol.TypeRequest;
     protocol.Request_RequestID := "7f3a";
     protocol.Request_Method := "GET";
     protocol.Request_Path := "/version";
     protocol.Request_Headers := headers;
     protocol.Request_Body := body;
     protocol.Request_Streaming := false |}.

Definition sampleReply : Response :=
  {| StatusCode := 200;
     Resp_Header := {[ "Connection" := ["keep-alive"]; "Set-Cookie" := ["a=1"; "b=2"] ]};
     Resp_Body := [ {| rs_data := "ok"; rs_err := None |} ] |}.

Definition answeringServer : Server :=
  {| cfg := {| Token := EmptyString; AgentID := "agent-1"; AgentName := "host-1" |};
     dockerClient := {| RequestRaw := fun _ _ _ _ => inl sampleReply;
                        Ping := None; GetVersion := Some "24.0.7" |} |}.

(** A daemon whose reply body delivers two lines and then breaks. *)
Definition brokenStream : Reader :=
  [ {| rs_data := "line 1"; rs_err := None |};
    {| rs_data := "line 2"; rs_err := Some (ReadFailed "reset") |} ].

Definition streamingServer : Server :=
  {| cfg := {| Token := EmptyString; AgentID := "agent-1"; AgentName := "host-1" |};
     dockerClient := {| RequestRaw := fun _ _ _ _ =>
                          inl {| StatusCode := 200; Resp_Header := ∅;
                                 Resp_Body := brokenStream |};
                        Ping := None; GetVersion := Some "24.0.7" |} |}.

(** A mux that redirects the paths with a doubled slash. *)
Definition sampleMuxOwn (r : Request) : option MuxReply :=
  if GoStrings.Contains (URL_Path r) "//"
  then Some {| mr_code := StatusMovedPermanently;
               mr_header := fun h => <["Location" := ["/containers/json"]]> h;
               mr_body := None |}
  else None.

Definition sampleHeaders : Header :=
  {[ "Connection" := ["close"]; "Accept" := ["text/plain"; "text/html"] ]}.

(** * Properties *)

(** ** Go strings *)

Lemma string_app_cons (c : ascii) (a b : string) :
  String c a +:+ b = String c (a +:+ b).
Proof. reflexivity. Qed.

Lemma string_app_nil_l (b : string) : "" +:+ b = b.
Proof. reflexivity. Qed.

Lemma HasPrefix_spec (s p : string) :
  GoStrings.HasPrefix s p = true <-> GoStrings.starts_with s p.
Proof.
  unfold GoStrings.starts_with. revert s.
  induction p as [|c p IH]; intros s; simpl.
  - split; [intros _; exists s; reflexivity | reflexivity].
  - destruct s as [|d s].
    + split; [discriminate | intros [t Ht]; discriminate].
    + rewrite andb_true_iff, Ascii.eqb_eq, IH. split.
      * intros [-> [t ->]]. exists t. reflexivity.
      * intros [t Ht]. injection Ht as -> ->. split; [reflexivity | exists t; reflexivity].
Qed.

Lemma Contains_spec (s sub : string) :
  GoStrings.Contains s sub = true <-> GoStrings.occurs_in sub s.
Proof.
  unfold GoStrings.occurs_in.
  induction s as [|d s IH]; simpl.
  - rewrite orb_false_r, HasPrefix_spec. split.
    + intros [t Ht]. exists "", t. exact Ht.
    + intros [a [b Hab]]. destruct a; [exists b; exact Hab | discriminate].
  - rewrite orb_true_iff, IH, HasPrefix_spec. split.
    + intros [[t Ht] | [a [b Hab]]].
      * exists "", t. exact Ht.
      * exists (String d a), b. rewrite string_app_cons, Hab. reflexivity.
    + intros [a [b Hab]]. destruct a as [|e a].
      * left. exists b. exact Hab.
      * right. injection Hab as _ ->. exists a, b. reflexivity.
Qed.

Lemma slice_from_app (a t : string) :
  GoStrings.slice_from (String.length a) (a +:+ t) = t.
Proof.
  induction a as [|c a IH]; [reflexivity |].
  rewrite string_app_cons. simpl. exact IH.
Qed.

Lemma slice_from_split (n : nat) (s : string) :
  (n <= String.length s)%nat ->
  exists a, s = a +:+ GoStrings.slice_from n s /\ String.length a = n.
Proof.
  revert s. induction n as [|n IH]; intros s Hn.
  - exists "". split; reflexivity.
  - destruct s as [|c s]; simpl in *; [lia |].
    destruct (IH s ltac:(lia)) as [a [Ha Hl]].
    exists (String c a). rewrite string_app_cons. simpl. split; [f_equal; exact Ha | lia].
Qed.

Lemma string_app_length (a b : string) :
  String.length (a +:+ b) = (String.length a + String.length b)%nat.
Proof.
  induction a as [|c a IH]; [reflexivity |].
  rewrite string_app_cons. simpl. now rewrite IH.
Qed.

Lemma HasSuffix_spec (s suf : string) :
  GoStrings.HasSuffix s suf = true <-> GoStrings.ends_with s suf.
Proof.
  unfold GoStrings.HasSuffix, GoStrings.ends_with.
  rewrite andb_true_iff, Nat.leb_le, String.eqb_eq. split.
  - intros [Hl He].
    destruct (slice_from_split (String.length s - String.length suf) s ltac:(lia))
      as [a [Ha _]].
    exists a. rewrite He in Ha. exact Ha.
  - intros [a ->]. rewrite string_app_length. split; [lia |].
    replace (String.length a + String.length suf - String.length suf)%nat
      with (String.length a) by lia.
    apply slice_from_app.
Qed.

(** ** Streaming classification *)

(** C1. The classification is a function of the path and the method alone,
    and it is true exactly on the rows of the table: "/logs" occurs and the
    method is GET; or "/attach" occurs; or "/exec/" and "/start" both occur;
    or the path ends with "/events"; or "/build" occurs and the method is
    POST; or "/images/create" or "/images/push" occurs and the method is
    POST. The five sample requests classify as the specification lists. *)
Theorem isStreamingRequest_table :
  (forall path method : string,
      isStreamingRequest path method = true <->
      (GoStrings.occurs_in "/logs" path /\ method = "GET")
      \/ GoStrings.occurs_in "/attach" path
      \/ (GoStrings.occurs_in "/exec/" path /\ GoStrings.occurs_in "/start" path)
      \/ GoStrings.ends_with path "/events"
      \/ (GoStrings.occurs_in "/build" path /\ method = "POST")
      \/ ((GoStrings.occurs_in "/images/create" path \/ GoStrings.occurs_in "/images/push" path)
          /\ method = "POST"))
  /\ isStreamingRequest "/containers/abc/logs" "GET" = true
  /\ isStreamingRequest "/containers/abc/logs" "POST" = false
  /\ isStreamingRequest "/events" "GET" = true
  /\ isStreamingRequest "/containers/json" "GET" = false
  /\ isStreamingRequest "/images/create" "POST" = true.
Proof.
  split; [| repeat split; reflexivity].
  intros path method. unfold isStreamingRequest.
  rewrite <- !Contains_spec, <- HasSuffix_spec, <- !(String.eqb_eq method).
  destruct (GoStrings.Contains path "/logs"), (GoStrings.Contains path "/attach"),
    (GoStrings.Contains path "/exec/"), (GoStrings.Contains path "/start"),
    (GoStrings.HasSuffix path "/events"), (GoStrings.Contains path "/build"),
    (GoStrings.Contains path "/images/create"), (GoStrings.Contains path "/images/push"),
    (String.eqb method "GET"), (String.eqb method "POST"); simpl; intuition congruence.
Qed.

(** ** Case folding and the hop-by-hop table *)

Lemma byte_lt_256 (c : ascii) : (byte c < 256)%N.
Proof. unfold byte. apply N_ascii_bounded. Qed.

Lemma lor_below_RuneSelf (a b : N) :
  (RuneSelf <=? N.lor a b)%N = false <-> (a < RuneSelf /\ b < RuneSelf)%N.
Proof.
  unfold RuneSelf. rewrite N.leb_gt.
  change 128%N with (2 ^ 7)%N.
  destruct (N.eq_dec a 0%N) as [-> | Ha]; [rewrite N.lor_0_l; intuition lia |].
  destruct (N.eq_dec b 0%N) as [-> | Hb]; [rewrite N.lor_0_r; intuition lia |].
  assert (Hab : N.lor a b <> 0%N) by (intros H; apply N.lor_eq_0_iff in H; tauto).
  rewrite !N.log2_lt_pow2 by lia. rewrite N.log2_lor. lia.
Qed.

Lemma lower_below_RuneSelf (b : N) : (lower b < RuneSelf <-> b < RuneSelf)%N.
Proof.
  unfold lower, RuneSelf.
  destruct (65 <=? b)%N eqn:H1, (b <=? 90)%N eqn:H2; simpl;
    rewrite ?N.leb_le, ?N.leb_gt in *; lia.
Qed.

Lemma is_ascii_cons (c : ascii) (s : string) :
  is_ascii (String c s) <-> (byte c < RuneSelf)%N /\ is_ascii s.
Proof. unfold is_ascii. simpl. apply (Forall_cons (fun b => (b < RuneSelf)%N)). Qed.

Lemma eq_ignore_case_ascii (s t : string) :
  eq_ignore_case s t -> is_ascii t -> is_ascii s.
Proof.
  unfold eq_ignore_case, is_ascii. revert t.
  induction s as [|c s IH]; intros [|d t]; simpl; try discriminate.
  - intros _ _. constructor.
  - intros [= Hh Ht] Hf. apply Forall_cons in Hf as [Hd Hf]. constructor.
    + apply lower_below_RuneSelf. rewrite Hh. apply lower_below_RuneSelf. exact Hd.
    + eapply IH; eauto.
Qed.

(** On ASCII input [EqualFold] never reaches the Unicode branch and
    decides equality up to letter case. *)
Lemma EqualFold_ascii (fold : string -> string -> bool) (s t : string) :
  is_ascii s -> is_ascii t ->
  EqualFold fold s t = true <-> eq_ignore_case s t.
Proof.
  unfold eq_ignore_case. revert t.
  induction s as [|c s IH]; intros [|d t]; simpl; intros Hs Ht;
    try (split; [discriminate | intros [=]]; fail); [tauto |].
  apply is_ascii_cons in Hs as [Hc Hs]. apply is_ascii_cons in Ht as [Hd Ht].
  pose proof (proj2 (lor_below_RuneSelf (byte c) (byte d)) (conj Hc Hd)) as ->.
  unfold RuneSelf in *.
  specialize (IH t Hs Ht).
  destruct (byte d =? byte c)%N eqn:He.
  - apply N.eqb_eq in He. rewrite He, IH. split; [intros ->; reflexivity | intros [= ?]; assumption].
  - apply N.eqb_neq in He.
    assert (Hcase : forall lo hi : N, (lo < hi)%N ->
      ((65 <=? lo) && (lo <=? 90) && (hi =? lo + 97 - 65))%N = true <-> lower lo = lower hi).
    { intros lo hi Hlt. unfold lower.
      rewrite !andb_true_iff, !N.leb_le, N.eqb_eq.
      destruct (65 <=? lo)%N eqn:H1, (lo <=? 90)%N eqn:H2,
               (65 <=? hi)%N eqn:H3, (hi <=? 90)%N eqn:H4; simpl;
        rewrite ?N.leb_le, ?N.leb_gt in *; lia. }
    destruct (byte d <? byte c)%N eqn:Hlt.
    + apply N.ltb_lt in Hlt. specialize (Hcase (byte d) (byte c) Hlt).
      destruct ((65 <=? byte d) && (byte d <=? 90) && (byte c =? byte d + 97 - 65))%N.
      * rewrite IH. split; [intros ->; f_equal; symmetry; apply Hcase; reflexivity
                           | intros [= _ ?]; assumption].
      * split; [discriminate | intros [= Hl _]]. symmetry in Hl. apply Hcase in Hl. discriminate.
    + apply N.ltb_ge in Hlt. assert (Hlt' : (byte c < byte d)%N) by lia.
      specialize (Hcase (byte c) (byte d) Hlt').
      destruct ((65 <=? byte c) && (byte c <=? 90) && (byte d =? byte c + 97 - 65))%N.
      * rewrite IH. split; [intros ->; f_equal; apply Hcase; reflexivity
                           | intros [= _ ?]; assumption].
      * split; [discriminate | intros [= Hl _]]. apply Hcase in Hl. discriminate.
Qed.

Lemma hopByHop_ascii : Forall is_ascii hopByHop.
Proof. repeat constructor. Qed.

(** Every spelling of a table entry that differs from it only in letter
    case is recognised, whatever the Unicode branch does. *)
Lemma isHopByHopHeader_fold (fold : string -> string -> bool) (header h : string) :
  In h hopByHop -> eq_ignore_case header h -> isHopByHopHeader fold header = true.
Proof.
  intros Hin Heq. unfold isHopByHopHeader. apply existsb_exists.
  exists h. split; [exact Hin |].
  assert (Hh : is_ascii h).
  { pose proof hopByHop_ascii as Hall. rewrite List.Forall_forall in Hall. auto. }
  apply EqualFold_ascii; auto. eapply eq_ignore_case_ascii; eauto.
Qed.

(** On an ASCII header name the test is exactly membership in the table up
    to letter case. *)
Lemma isHopByHopHeader_ascii (fold : string -> string -> bool) (header : string) :
  is_ascii header ->
  isHopByHopHeader fold header = true <->
  exists h, In h hopByHop /\ eq_ignore_case header h.
Proof.
  intros Hs. unfold isHopByHopHeader. rewrite existsb_exists.
  pose proof hopByHop_ascii as Hall. rewrite List.Forall_forall in Hall.
  split; intros [h [Hin H]]; exists h; (split; [exact Hin |]);
    apply (EqualFold_ascii fold header h Hs (Hall h Hin)); exact H.
Qed.

Lemma isHopByHopHeader_ascii_witness :
  isHopByHopHeader (fun _ _ => false) "KEEP-alive" = true /\
  isHopByHopHeader (fun _ _ => false) "Keep-Alives" = false.
Proof.
  split.
  - apply (isHopByHopHeader_ascii (fun _ _ => false) "KEEP-alive").
    + repeat constructor.
    + exists "Keep-Alive". split; [right; left; reflexivity | reflexivity].
  - destruct (isHopByHopHeader (fun _ _ => false) "Keep-Alives") eqn:H; [| reflexivity].
    apply (isHopByHopHeader_ascii (fun _ _ => false) "Keep-Alives") in H;
      [| repeat constructor].
    destruct H as [h [Hin Heq]]. simpl in Hin.
    repeat (destruct Hin as [<- | Hin]; [discriminate Heq |]). contradiction.
Defined.

(** ** Request headers forwarded to the daemon *)

Section ForwardHeaders.

Variable fold : string -> string -> bool.

Lemma forwardEntry_lookup (headers : gmap string string) (k key : string) (vs : list string) :
  forwardEntry fold headers (k, vs) !! key =
  if decide (k = key)
  then match forwarded_value fold k vs with Some v => Some v | None => headers !! key end
  else headers !! key.
Proof.
  unfold forwardEntry, forwarded_value.
  destruct (isHopByHopHeader fold k); simpl.
  - rewrite andb_false_r. destruct (decide (k = key)); reflexivity.
  - rewrite andb_true_r. destruct vs as [|v vs]; simpl.
    + destruct (decide (k = key)); reflexivity.
    + apply lookup_insert.
Qed.

Lemma foldl_forwardEntry_lookup (entries : list (string * list string))
      (acc : gmap string string) (key : string) :
  NoDup entries.*1 ->
  foldl (forwardEntry fold) acc entries !! key =
  match (list_to_map entries : Header) !! key ≫= forwarded_value fold key with
  | Some v => Some v
  | None => acc !! key
  end.
Proof.
  revert acc. induction entries as [|[k vs] rest IH]; intros acc Hnd.
  - simpl. rewrite lookup_empty. reflexivity.
  - apply NoDup_cons in Hnd as [Hk Hnd].
    change (foldl (forwardEntry fold) acc ((k, vs) :: rest))
      with (foldl (forwardEntry fold) (forwardEntry fold acc (k, vs)) rest).
    rewrite (IH _ Hnd), list_to_map_cons, forwardEntry_lookup, lookup_insert.
    destruct (decide (k = key)) as [-> | Hne]; simpl; [| reflexivity].
    rewrite (not_elem_of_list_to_map_1 (M := gmap string) rest key Hk). simpl.
    reflexivity.
Qed.

(** The forwarded map does not depend on the order in which Go ranges over
    [r.Header]: whatever the order, a name is forwarded with its first value
    exactly when it is not hop-by-hop and has a value. *)
Lemma forwardHeaders_lookup (hdr : Header) (entries : list (string * list string)) (key : string) :
  entries ≡ₚ map_to_list hdr ->
  forwardHeaders fold entries !! key = hdr !! key ≫= forwarded_value fold key.
Proof.
  intros Hperm. unfold forwardHeaders.
  assert (Hnd : NoDup entries.*1).
  { rewrite Hperm. apply NoDup_fst_map_to_list. }
  rewrite (foldl_forwardEntry_lookup _ _ _ Hnd), lookup_empty.
  rewrite (list_to_map_proper (M := gmap string) _ _ Hnd Hperm), list_to_map_to_list.
  destruct (hdr !! key ≫= forwarded_value fold key); reflexivity.
Qed.

Lemma forwardHeaders_order (hdr : Header) (entries : list (string * list string)) :
  entries ≡ₚ map_to_list hdr ->
  forwardHeaders fold entries = forwardHeaders fold (map_to_list hdr).
Proof.
  intros Hperm. apply map_eq. intros key.
  rewrite (forwardHeaders_lookup hdr entries key Hperm).
  rewrite (forwardHeaders_lookup hdr (map_to_list hdr) key); reflexivity.
Qed.


End ForwardHeaders.

Lemma forwardHeaders_order_witness :
  forwardHeaders (fun _ _ => false) (reverse (map_to_list sampleHeaders))
  = forwardHeaders (fun _ _ => false) (map_to_list sampleHeaders).
Proof.
  apply (forwardHeaders_order (fun _ _ => false) sampleHeaders).
  apply reverse_Permutation.
Defined.

(** ** The stream relay *)

Lemma string_app_assoc (a b c : string) : (a +:+ b) +:+ c = a +:+ (b +:+ c).
Proof.
  induction a as [|x a IH]; [reflexivity |].
  rewrite !string_app_cons, IH. reflexivity.
Qed.

Lemma string_app_nil_r (a : string) : a +:+ EmptyString = a.
Proof.
  induction a as [|x a IH]; [reflexivity |].
  rewrite string_app_cons, IH. reflexivity.
Qed.

Lemma slice_to_from (n : nat) (s : string) :
  GoStrings.slice_to n s +:+ GoStrings.slice_from n s = s.
Proof.
  revert s. induction n as [|n IH]; intros [|c s]; simpl; try reflexivity.
  rewrite string_app_cons, IH. reflexivity.
Qed.

Lemma slice_to_length (n : nat) (s : string) :
  (n <= String.length s)%nat -> String.length (GoStrings.slice_to n s) = n.
Proof.
  revert s. induction n as [|n IH]; intros [|c s]; simpl; try reflexivity; try lia.
  intros H. rewrite IH; lia.
Qed.

Lemma Read_weight (size : nat) (body body' : Reader) (chunk : string) :
  (0 < size)%nat -> Read size body = (chunk, None, body') ->
  (reader_weight body' < reader_weight body)%nat.
Proof.
  intros Hsize. destruct body as [|st rest]; simpl; [discriminate |].
  destruct (String.length (rs_data st) <=? size)%nat eqn:Hle.
  - intros [= _ _ <-]. lia.
  - intros [= _ <-]. simpl. apply Nat.leb_gt in Hle.
    assert (String.length (GoStrings.slice_from size (rs_data st))
            < String.length (rs_data st))%nat; [| lia].
    clear -Hsize Hle. revert Hle. generalize (rs_data st) as s. clear st.
    induction size as [|n IH]; [lia |].
    intros [|c s]; simpl; [lia |]. intros Hl.
    destruct n; [destruct s; simpl; lia |].
    specialize (IH ltac:(lia) s ltac:(lia)). lia.
Qed.

(** One [Read]: never more than the buffer holds, and what it returns is
    the next part of what the reader delivers. *)
Lemma Read_spec (size : nat) (body body' : Reader) (chunk : string) (e : option ReadError) :
  Read size body = (chunk, e, body') ->
  (String.length chunk <= size)%nat /\
  match e with
  | Some err => delivered body = chunk /\ final_error body = err
  | None => delivered body = chunk +:+ delivered body' /\ final_error body = final_error body'
  end.
Proof.
  destruct body as [|[d err] rest]; simpl.
  - intros [= <- <- <-]. simpl. split; [lia | split; reflexivity].
  - destruct (String.length d <=? size)%nat eqn:Hle.
    + apply Nat.leb_le in Hle. intros [= <- <- <-]. split; [exact Hle |].
      destruct err; split; reflexivity.
    + apply Nat.leb_gt in Hle. intros [= <- <- <-]. simpl.
      rewrite slice_to_length by lia. split; [lia |].
      destruct err; simpl; rewrite <- ?string_app_assoc, slice_to_from; split; reflexivity.
Qed.

Lemma concat_str_app (a b : list string) :
  concat_str (a ++ b) = concat_str a +:+ concat_str b.
Proof.
  induction a as [|x a IH]; [reflexivity |].
  simpl. rewrite IH, string_app_assoc. reflexivity.
Qed.

Lemma streamLoop_eq (st : LoopState) :
  streamLoop st =
  match bodyRead st with
  | (chunk, Some e, st1) => logStreamError e (writeChunk st1 chunk)
  | (chunk, None, st1) => streamLoop (writeChunk st1 chunk)
  end.
Proof.
  funelim (streamLoop st);
    match goal with Hr : bodyRead _ = _ |- _ => rewrite Hr end; reflexivity.
Qed.

Lemma bodyRead_eq (st : LoopState) :
  bodyRead st =
  (fst (fst (Read bufSize (ls_body st))), snd (fst (Read bufSize (ls_body st))),
   {| ls_w := ls_w st; ls_body := snd (Read bufSize (ls_body st)); ls_tr := ls_tr st;
      ls_steps := ls_steps st ++ [StepRead (fst (fst (Read bufSize (ls_body st))))
                                           (snd (fst (Read bufSize (ls_body st))))] |}).
Proof. unfold bodyRead. destruct (Read bufSize (ls_body st)) as [[chunk e] rest]. reflexivity. Qed.

Lemma relay_app (w : ResponseWriter) (a b : list string) :
  relay w (a ++ b) = relay (relay w a) b.
Proof. unfold relay. apply foldl_app. Qed.

Lemma writeChunk_fields (st : LoopState) (chunk : string) :
  ls_w (writeChunk st chunk)
    = relay (ls_w st) (if (0 <? String.length chunk)%nat then [chunk] else []) /\
  ls_body (writeChunk st chunk) = ls_body st /\
  ls_tr (writeChunk st chunk) = ls_tr st /\
  ls_steps (writeChunk st chunk) = ls_steps st ++ round_writes chunk.
Proof.
  unfold writeChunk, round_writes. destruct (0 <? String.length chunk)%nat; simpl.
  - rewrite <- app_assoc. auto.
  - rewrite app_nil_r. auto.
Qed.

Lemma logStreamError_fields (e : ReadError) (st : LoopState) :
  ls_w (logStreamError e st) = ls_w st /\
  ls_tr (logStreamError e st) = ls_tr st ++ stream_log e /\
  ls_steps (logStreamError e st) = ls_steps st ++ error_log e.
Proof. destruct e; simpl; rewrite ?app_nil_r; auto. Qed.

Lemma relay_fields (w : ResponseWriter) (chunks : list string) :
  w_ops (relay w chunks) = w_ops w ++ relay_ops chunks /\
  w_header (relay w chunks) = w_header w /\
  w_flusher (relay w chunks) = w_flusher w.
Proof.
  revert w. induction chunks as [|c chunks IH]; intros w.
  - simpl. rewrite app_nil_r. auto.
  - change (relay w (c :: chunks)) with (relay (Flush (Write w c)) chunks).
    destruct (IH (Flush (Write w c))) as [Ho [Hh Hf]]. rewrite Ho, Hh, Hf.
    destruct w as [h [st |] ops fl]; unfold Flush, Write, WriteHeader, add_op; simpl;
      rewrite <- !app_assoc; auto.
Qed.

Lemma step_ops_app (a b : list LoopStep) : step_ops (a ++ b) = step_ops a ++ step_ops b.
Proof. apply flat_map_app. Qed.

Lemma step_logs_app (a b : list LoopStep) : step_logs (a ++ b) = step_logs a ++ step_logs b.
Proof. apply flat_map_app. Qed.

Lemma round_writes_ops (chunk : string) :
  step_ops (round_writes chunk)
    = relay_ops (if (0 <? String.length chunk)%nat then [chunk] else []) /\
  step_logs (round_writes chunk) = [].
Proof. unfold round_writes. destruct (0 <? String.length chunk)%nat; split; reflexivity. Qed.

Lemma error_log_logs (e : ReadError) :
  step_ops (error_log e) = [] /\ step_logs (error_log e) = stream_log e.
Proof. destruct e; split; reflexivity. Qed.

(** The loop, run from any state: the calls it adds are a relay of what
    was left of the body, and they are what it adds to the reply and to
    the log. *)
Lemma streamLoop_run (st : LoopState) :
  exists steps : list LoopStep,
    relays (ls_body st) steps /\
    ls_steps (streamLoop st) = ls_steps st ++ steps /\
    w_ops (ls_w (streamLoop st)) = w_ops (ls_w st) ++ step_ops steps /\
    ls_tr (streamLoop st) = ls_tr st ++ step_logs steps.
Proof.
  remember (reader_weight (ls_body st)) as n eqn:Hn.
  revert st Hn. induction n as [n IH] using lt_wf_ind. intros st ->.
  rewrite streamLoop_eq, bodyRead_eq.
  destruct (Read bufSize (ls_body st)) as [[chunk e] rest] eqn:Hread.
  cbn [fst snd].
  set (st1 := {| ls_w := ls_w st; ls_body := rest; ls_tr := ls_tr st;
                 ls_steps := ls_steps st ++ [StepRead chunk e] |}).
  destruct (writeChunk_fields st1 chunk) as (Hw & Hb & Ht & Hs).
  destruct (round_writes_ops chunk) as [Hro Hrl].
  destruct (relay_fields (ls_w st1) (if (0 <? String.length chunk)%nat then [chunk] else []))
    as [Hops _].
  destruct e as [err |].
  - exists (StepRead chunk (Some err) :: round_writes chunk ++ error_log err).
    destruct (logStreamError_fields err (writeChunk st1 chunk)) as (Hlw & Hlt & Hls).
    destruct (error_log_logs err) as [Heo Hel].
    split; [eapply relays_last; exact Hread |].
    rewrite Hlw, Hlt, Hls, Hw, Ht, Hs, Hops. subst st1. cbn [ls_w ls_tr ls_steps].
    change (StepRead chunk (Some err) :: round_writes chunk ++ error_log err)
      with ([StepRead chunk (Some err)] ++ round_writes chunk ++ error_log err).
    rewrite !step_ops_app, !step_logs_app, Hro, Hrl, Heo, Hel, <- !app_assoc.
    simpl. rewrite ?app_nil_r. auto.
  - assert (Hlt : (reader_weight (ls_body (writeChunk st1 chunk))
                   < reader_weight (ls_body st))%nat).
    { rewrite Hb. subst st1. cbn [ls_body].
      eapply Read_weight; [| exact Hread]. unfold bufSize. lia. }
    destruct (IH _ Hlt (writeChunk st1 chunk) eq_refl) as (steps & Hrel & Hsteps & Hwops & Htr).
    exists (StepRead chunk None :: round_writes chunk ++ steps).
    split; [eapply relays_next; [exact Hread | rewrite Hb in Hrel; exact Hrel] |].
    rewrite Hsteps, Hwops, Htr, Hw, Ht, Hs, Hops. subst st1. cbn [ls_w ls_tr ls_steps].
    change (StepRead chunk None :: round_writes chunk ++ steps)
      with ([StepRead chunk None] ++ round_writes chunk ++ steps).
    rewrite !step_ops_app, !step_logs_app, Hro, Hrl, <- !app_assoc.
    simpl. auto.
Qed.

Lemma streamLoop_spec (w : ResponseWriter) (body : Reader) (tr : list Event) :
  exists chunks : list string,
    Forall (fun c => (0 < String.length c <= bufSize)%nat) chunks /\
    concat_str chunks = delivered body /\
    loopResult (streamLoop (startLoop w body tr))
      = (relay w chunks, tr ++ stream_log (final_error body)).
Proof.
  unfold loopResult.
  assert (Hgen : forall st : LoopState,
             exists chunks : list string,
               Forall (fun c => (0 < String.length c <= bufSize)%nat) chunks /\
               concat_str chunks = delivered (ls_body st) /\
               ls_w (streamLoop st) = relay (ls_w st) chunks /\
               ls_tr (streamLoop st) = ls_tr st ++ stream_log (final_error (ls_body st))).
  { clear. intros st. remember (reader_weight (ls_body st)) as n eqn:Hn.
    revert st Hn. induction n as [n IH] using lt_wf_ind. intros st ->.
    rewrite streamLoop_eq, bodyRead_eq.
    destruct (Read bufSize (ls_body st)) as [[chunk e] rest] eqn:Hread.
    cbn [fst snd].
    set (st1 := {| ls_w := ls_w st; ls_body := rest; ls_tr := ls_tr st;
                   ls_steps := ls_steps st ++ [StepRead chunk e] |}).
    destruct (Read_spec _ _ _ _ _ Hread) as [Hlen Hspec].
    destruct (writeChunk_fields st1 chunk) as (Hw & Hb & Ht & _).
    assert (Hone : Forall (fun c => (0 < String.length c <= bufSize)%nat)
                          (if (0 <? String.length chunk)%nat then [chunk] else []) /\
                   concat_str (if (0 <? String.length chunk)%nat then [chunk] else []) = chunk).
    { destruct (0 <? String.length chunk)%nat eqn:Hpos.
      - apply Nat.ltb_lt in Hpos.
        split; [constructor; [lia | constructor] | apply string_app_nil_r].
      - apply Nat.ltb_ge in Hpos. destruct chunk; simpl in Hpos; [| lia].
        split; [constructor | reflexivity]. }
    destruct Hone as [Hall Hcat].
    destruct e as [err |].
    - destruct Hspec as [Hd He].
      destruct (logStreamError_fields err (writeChunk st1 chunk)) as (Hlw & Hlt & _).
      eexists. split; [exact Hall |].
      split; [rewrite Hcat; congruence |].
      rewrite Hlw, Hlt, Hw, Ht, He. subst st1. auto.
    - destruct Hspec as [Hd He].
      assert (Hlt : (reader_weight (ls_body (writeChunk st1 chunk))
                     < reader_weight (ls_body st))%nat).
      { rewrite Hb. subst st1. cbn [ls_body].
        eapply Read_weight; [| exact Hread]. unfold bufSize. lia. }
      destruct (IH _ Hlt (writeChunk st1 chunk) eq_refl) as (chunks & Hc & Hcc & Hrw & Hrt).
      exists ((if (0 <? String.length chunk)%nat then [chunk] else []) ++ chunks).
      split; [apply Forall_app; split; assumption |].
      rewrite Hb in Hcc, Hrt. subst st1. cbn [ls_body ls_w ls_tr] in *.
      split; [rewrite concat_str_app, Hcat, Hcc, Hd; reflexivity |].
      rewrite Hrw, Hrt, Hw, Ht, relay_app, He. auto. }
  destruct (Hgen (startLoop w body tr)) as (chunks & Hall & Hcat & Hw & Ht).
  exists chunks. simpl in *. rewrite Hw, Ht. auto.
Qed.

(** *** What the specification's relay says of its calls *)

Lemma body_bytes_app (a b : list WriterOp) :
  body_bytes (a ++ b) = body_bytes a +:+ body_bytes b.
Proof.
  induction a as [|op a IH]; [reflexivity |].
  destruct op; simpl; rewrite IH, ?string_app_assoc; reflexivity.
Qed.

Lemma round_writes_no_read (chunk data : string) (err : option ReadError)
      (pre post tail : list LoopStep) :
  round_writes chunk ++ tail = pre ++ StepRead data err :: post ->
  exists pre', tail = pre' ++ StepRead data err :: post.
Proof.
  unfold round_writes. destruct (0 <? String.length chunk)%nat; simpl.
  - destruct pre as [|x [|y pre]]; simpl; intros [=]. subst. eexists. reflexivity.
  - intros ->. eexists. reflexivity.
Qed.

Lemma error_log_no_read (e : ReadError) (data : string) (err : option ReadError)
      (pre post : list LoopStep) :
  error_log e <> pre ++ StepRead data err :: post.
Proof.
  destruct e; simpl; [destruct pre; discriminate |].
  destruct pre as [|x [|y pre]]; discriminate.
Qed.

(** Every read is of at most 4096 bytes. *)
Lemma relays_bounded (body : Reader) (steps : list LoopStep) :
  relays body steps ->
  forall pre data err post, steps = pre ++ StepRead data err :: post ->
    (String.length data <= 4096)%nat.
Proof.
  induction 1 as [body rest chunk e Hread | body rest chunk steps Hread Hrel IH];
    intros pre data err post Heq;
    destruct (Read_spec _ _ _ _ _ Hread) as [Hlen _].
  - destruct pre as [|x pre]; simpl in Heq.
    + injection Heq as <- _ _. exact Hlen.
    + injection Heq as _ Heq.
      destruct (round_writes_no_read _ _ _ _ _ _ Heq) as [pre' Hlog].
      destruct (error_log_no_read _ _ _ _ _ Hlog).
  - destruct pre as [|x pre]; simpl in Heq.
    + injection Heq as <- _ _. exact Hlen.
    + injection Heq as _ Heq.
      destruct (round_writes_no_read _ _ _ _ _ _ Heq) as [pre' Hrest].
      exact (IH _ _ _ _ Hrest).
Qed.

(** The bytes of a read are written and flushed before anything else is
    done: the two calls that follow the read are that write and the
    flush. *)
Lemma relays_immediate (body : Reader) (steps : list LoopStep) :
  relays body steps ->
  forall pre data err post, steps = pre ++ StepRead data err :: post ->
    data <> EmptyString ->
    exists post', post = StepWrite data :: StepFlush :: post'.
Proof.
  assert (Hround : forall chunk, chunk <> EmptyString ->
            round_writes chunk = [StepWrite chunk; StepFlush]).
  { intros [|c chunk] Hne; [contradiction | reflexivity]. }
  induction 1 as [body rest chunk e Hread | body rest chunk steps Hread Hrel IH];
    intros pre data err post Heq Hne.
  - destruct pre as [|x pre]; simpl in Heq.
    + injection Heq as <- _ <-. rewrite (Hround _ Hne). eexists. reflexivity.
    + injection Heq as _ Heq.
      destruct (round_writes_no_read _ _ _ _ _ _ Heq) as [pre' Hlog].
      destruct (error_log_no_read _ _ _ _ _ Hlog).
  - destruct pre as [|x pre]; simpl in Heq.
    + injection Heq as <- _ <-. rewrite (Hround _ Hne). eexists. reflexivity.
    + injection Heq as _ Heq.
      destruct (round_writes_no_read _ _ _ _ _ _ Heq) as [pre' Hrest].
      exact (IH _ _ _ _ Hrest Hne).
Qed.

(** Nothing is written but what was just read. *)
Lemma relays_writes_read (body : Reader) (steps : list LoopStep) :
  relays body steps ->
  forall pre data post, steps = pre ++ StepWrite data :: post ->
    exists pre' err, pre = pre' ++ [StepRead data err].
Proof.
  assert (Hin : forall chunk data (pre post tail : list LoopStep),
            round_writes chunk ++ tail = pre ++ StepWrite data :: post ->
            (pre = [] /\ chunk = data) \/
            exists pre', pre = round_writes chunk ++ pre' /\
                         tail = pre' ++ StepWrite data :: post).
  { intros chunk data pre post tail. unfold round_writes.
    destruct (0 <? String.length chunk)%nat; simpl.
    - destruct pre as [|x [|y pre]]; simpl; intros [=]; subst.
      + left. auto.
      + right. eexists. split; reflexivity.
    - intros ->. right. exists pre. split; reflexivity. }
  induction 1 as [body rest chunk e Hread | body rest chunk steps Hread Hrel IH];
    intros pre data post Heq.
  - destruct pre as [|x pre]; simpl in Heq; [discriminate |].
    injection Heq as <- Heq.
    destruct (Hin _ _ _ _ _ Heq) as [[-> ->] | [pre' [-> Hlog]]].
    + exists [], (Some e). reflexivity.
    + destruct e; simpl in Hlog; [destruct pre'; discriminate |].
      destruct pre' as [|y [|z pre']]; discriminate.
  - destruct pre as [|x pre]; simpl in Heq; [discriminate |].
    injection Heq as <- Heq.
    destruct (Hin _ _ _ _ _ Heq) as [[-> ->] | [pre' [-> Hrest]]].
    + exists [], None. reflexivity.
    + destruct (IH _ _ _ Hrest) as (pre'' & err & ->).
      exists (StepRead chunk None :: round_writes chunk ++ pre''), err.
      simpl. rewrite <- app_assoc. reflexivity.
Qed.

(** What is written is, in order, what the body delivers up to its end or
    first error; only an error other than the clean end is logged. *)
Lemma relays_bytes (body : Reader) (steps : list LoopStep) :
  relays body steps ->
  body_bytes (step_ops steps) = delivered body /\
  step_logs steps = stream_log (final_error body).
Proof.
  assert (Hround : forall chunk, body_bytes (step_ops (round_writes chunk)) = chunk).
  { intros chunk. unfold round_writes. destruct (0 <? String.length chunk)%nat eqn:Hpos.
    - simpl. apply string_app_nil_r.
    - apply Nat.ltb_ge in Hpos. destruct chunk; simpl in Hpos; [reflexivity | lia]. }
  induction 1 as [body rest chunk e Hread | body rest chunk steps Hread Hrel [IHb IHl]];
    destruct (Read_spec _ _ _ _ _ Hread) as [_ [Hd He]].
  - change (StepRead chunk (Some e) :: round_writes chunk ++ error_log e)
      with ([StepRead chunk (Some e)] ++ round_writes chunk ++ error_log e).
    destruct (error_log_logs e) as [Heo Hel]. destruct (round_writes_ops chunk) as [_ Hrl].
    rewrite !step_ops_app, !step_logs_app, Heo, Hel, Hrl, app_nil_r. simpl.
    rewrite Hround, Hd, He. auto.
  - change (StepRead chunk None :: round_writes chunk ++ steps)
      with ([StepRead chunk None] ++ round_writes chunk ++ steps).
    destruct (round_writes_ops chunk) as [_ Hrl].
    rewrite !step_ops_app, !step_logs_app, Hrl. simpl.
    rewrite body_bytes_app, Hround, IHb, IHl, Hd, He. auto.
Qed.

(** C10. With a writer that does not implement [http.Flusher],
    [streamResponse] does not fail: it serves the reply by a single
    [io.Copy] of the whole body and adds no per-chunk write and no flush;
    the chunked, flushed relay is what it does only for a flusher. *)
Theorem streamResponse_without_flusher (w : ResponseWriter) (body : Reader) (tr : list Event) :
  w_flusher w = false ->
  streamResponse w body tr = (io_Copy w body, tr) /\
  w_ops (fst (streamResponse w body tr)) = w_ops w ++ [OpCopy (delivered body)].
Proof.
  intros Hfl. unfold streamResponse. rewrite Hfl. simpl.
  split; [reflexivity |]. unfold io_Copy, add_op, WriteHeader. simpl.
  destruct (String.eqb (delivered body) EmptyString), (w_status w); reflexivity.
Qed.

Lemma streamResponse_without_flusher_witness :
  streamResponse (newResponseWriter false) [ {| rs_data := "abc"; rs_err := None |} ] []
    = (io_Copy (newResponseWriter false) [ {| rs_data := "abc"; rs_err := None |} ], []) /\
  w_ops (fst (streamResponse (newResponseWriter false)
                [ {| rs_data := "abc"; rs_err := None |} ] []))
    = [] ++ [OpCopy "abc"].
Proof.
  exact (streamResponse_without_flusher (newResponseWriter false)
           [ {| rs_data := "abc"; rs_err := None |} ] [] eq_refl).
Defined.

(** ** The proxy handler *)

Section HandleProxy.

Variable fold : string -> string -> bool.
Variable canon : string -> string.

Lemma streamResponse_trace (w : ResponseWriter) (body : Reader) (tr : list Event) :
  exists extra, snd (streamResponse w body tr) = tr ++ extra /\ EvBodyClose ∉ extra.
Proof.
  unfold streamResponse. destruct (negb (w_flusher w)).
  - exists []. simpl. rewrite app_nil_r. split; [reflexivity | apply not_elem_of_nil].
  - destruct (streamLoop_spec w body tr) as [chunks [_ [_ ->]]]. simpl.
    eexists. split; [reflexivity |].
    destruct (final_error body) as [| msg]; simpl; [apply not_elem_of_nil |].
    intros Hin. apply list_elem_of_singleton in Hin. discriminate.
Qed.

Lemma streamResponse_header (w : ResponseWriter) (body : Reader) (tr : list Event) :
  w_header (fst (streamResponse w body tr)) = w_header w.
Proof.
  unfold streamResponse. destruct (negb (w_flusher w)).
  - unfold io_Copy, add_op, WriteHeader. simpl.
    destruct (String.eqb (delivered body) EmptyString), (w_status w); reflexivity.
  - destruct (streamLoop_spec w body tr) as [chunks [_ [_ ->]]]. simpl.
    apply relay_fields.
Qed.

Lemma io_Copy_header (w : ResponseWriter) (body : Reader) :
  w_header (io_Copy w body) = w_header w.
Proof.
  unfold io_Copy, add_op, WriteHeader. simpl.
  destruct (String.eqb (delivered body) EmptyString), (w_status w); reflexivity.
Qed.

Lemma handleProxy_calls_daemon (s : Server) (w : ResponseWriter) (r : Request) (tr : list Event) :
  exists rest,
    snd (handleProxy fold canon s w r tr) =
    tr ++ EvRequestRaw (Method r) (URL_RequestURI r)
            (forwardHeaders fold (map_to_list (Req_Header r))) :: rest.
Proof.
  unfold handleProxy.
  destruct (RequestRaw _ _ _ _ _) as [resp | err]; simpl.
  - match goal with |- context [if ?c then ?a else ?b] => destruct c end; simpl.
    + match goal with |- context [streamResponse ?w ?b ?t] =>
        destruct (streamResponse_trace w b t) as [extra [He _]];
        destruct (streamResponse w b t) as [w2 tr2] end.
      simpl in *. subst tr2. eexists. rewrite <- !app_assoc. reflexivity.
    + eexists. rewrite <- !app_assoc. reflexivity.
  - eexists. rewrite <- !app_assoc. reflexivity.
Qed.

Lemma handleProxy_reply_header (s : Server) (w : ResponseWriter) (r : Request) (tr : list Event)
      (resp : Response) :
  daemon_call fold s r = inl resp ->
  w_header (fst (handleProxy fold canon s w r tr)) =
  copyHeaders canon (map_to_list (Resp_Header resp)) (w_header w).
Proof.
  unfold daemon_call, handleProxy. intros ->.
  match goal with |- context [if ?c then ?a else ?b] => destruct c end.
  - match goal with |- context [streamResponse ?w ?b ?t] =>
      pose proof (streamResponse_header w b t) as Hh;
      destruct (streamResponse w b t) as [w2 tr2] end.
    simpl in *. rewrite Hh. unfold WriteHeader, set_header. simpl.
    destruct (w_status w); reflexivity.
  - cbv beta iota zeta delta [fst]. rewrite io_Copy_header.
    unfold WriteHeader, set_header. simpl.
    destruct (w_status w); reflexivity.
Qed.

(** A request classified as streaming is answered through [streamResponse],
    any other through one [io.Copy]; either way the reply body is closed
    afterwards. *)
Lemma handleProxy_reply (s : Server) (w : ResponseWriter) (r : Request) (tr : list Event)
      (resp : Response) :
  daemon_call fold s r = inl resp ->
  let w1 := WriteHeader
              (set_header w (copyHeaders canon (map_to_list (Resp_Header resp)) (w_header w)))
              (StatusCode resp) in
  let tr1 := tr ++ [EvRequestRaw (Method r) (URL_RequestURI r)
                      (forwardHeaders fold (map_to_list (Req_Header r)))] in
  handleProxy fold canon s w r tr =
  if isStreamingRequest (URL_Path r) (Method r)
  then (fst (streamResponse w1 (Resp_Body resp) tr1),
        snd (streamResponse w1 (Resp_Body resp) tr1) ++ [EvBodyClose])
  else (io_Copy w1 (Resp_Body resp), tr1 ++ [EvBodyClose]).
Proof.
  unfold daemon_call, handleProxy. intros ->. simpl.
  destruct (isStreamingRequest (URL_Path r) (Method r)); [| reflexivity].
  match goal with |- context [streamResponse ?a ?b ?c] => destruct (streamResponse a b c) end.
  reflexivity.
Qed.

End HandleProxy.

(** ** The relay of a streaming request *)

Lemma relays_functional (body : Reader) (a b : list LoopStep) :
  relays body a -> relays body b -> a = b.
Proof.
  intros Ha. revert b.
  induction Ha as [body rest chunk e Hread | body rest chunk steps Hread Hrel IH];
    intros b Hb;
    destruct Hb as [body rest' chunk' e' Hread' | body rest' chunk' steps' Hread' Hrel'];
    rewrite Hread in Hread'; try discriminate Hread'.
  - injection Hread' as <- <- _. reflexivity.
  - injection Hread' as <- <-. f_equal. f_equal. apply IH. exact Hrel'.
Qed.

Lemma WriteHeader_fields (w : ResponseWriter) (code : Z) :
  w_ops (WriteHeader w code) = w_ops w /\ w_flusher (WriteHeader w code) = w_flusher w.
Proof. unfold WriteHeader. destruct (w_status w); auto. Qed.

(** C5. A request classified as streaming that the daemon answers is
    served, on a writer that can flush, by the loop of [streamResponse],
    and the calls of that loop are the relay the specification describes:
    each round reads at most 4096 bytes of what is left of the daemon's
    reply; when the read returned bytes the next two calls are the write of
    exactly those bytes and the flush, before any further read, and
    nothing else is ever written; rounds follow one another until a read
    reports the end of the input or an error. All writes and flushes
    made, also those before a read error, are in the reply, whose body is
    what the daemon's body delivered up to its end or first error; a clean
    end logs nothing and any other error logs one line and ends the
    relay. (A writer that cannot flush is served by one copy instead: that
    is claim C10.) *)
Theorem streamResponse_relay
        (fold : string -> string -> bool) (canon : string -> string)
        (s : Server) (w : ResponseWriter) (r : Request) (tr : list Event) (resp : Response) :
  isStreamingRequest (URL_Path r) (Method r) = true ->
  w_flusher w = true ->
  daemon_call fold s r = inl resp ->
  let w1 := WriteHeader
              (set_header w (copyHeaders canon (map_to_list (Resp_Header resp)) (w_header w)))
              (StatusCode resp) in
  let tr1 := tr ++ [EvRequestRaw (Method r) (URL_RequestURI r)
                      (forwardHeaders fold (map_to_list (Req_Header r)))] in
  let st := streamLoop (startLoop w1 (Resp_Body resp) tr1) in
  handleProxy fold canon s w r tr = (ls_w st, ls_tr st ++ [EvBodyClose]) /\
  relays (Resp_Body resp) (ls_steps st) /\
  (forall pre data err post, ls_steps st = pre ++ StepRead data err :: post ->
     (String.length data <= 4096)%nat) /\
  (forall pre data err post, ls_steps st = pre ++ StepRead data err :: post ->
     data <> EmptyString ->
     exists post', post = StepWrite data :: StepFlush :: post') /\
  (forall pre data post, ls_steps st = pre ++ StepWrite data :: post ->
     exists pre' err, pre = pre' ++ [StepRead data err]) /\
  w_ops (ls_w st) = w_ops w ++ step_ops (ls_steps st) /\
  body_bytes (step_ops (ls_steps st)) = delivered (Resp_Body resp) /\
  ls_tr st = tr1 ++ stream_log (final_error (Resp_Body resp)).
Proof.
  intros Hstream Hfl Hcall w1 tr1 st.
  assert (Hfl1 : w_flusher w1 = true).
  { subst w1. rewrite (proj2 (WriteHeader_fields _ _)). exact Hfl. }
  assert (Hops1 : w_ops w1 = w_ops w).
  { subst w1. rewrite (proj1 (WriteHeader_fields _ _)). reflexivity. }
  destruct (streamLoop_run (startLoop w1 (Resp_Body resp) tr1))
    as (steps & Hrel & Hsteps & Hwops & Htr).
  fold st in Hsteps, Hwops, Htr. simpl in Hsteps, Hwops, Htr, Hrel.
  rewrite Hsteps. destruct (relays_bytes _ _ Hrel) as [Hbytes Hlogs].
  split.
  - rewrite (handleProxy_reply fold canon s w r tr resp Hcall). cbv zeta.
    rewrite Hstream. fold w1 tr1. unfold streamResponse. rewrite Hfl1. reflexivity.
  - split; [exact Hrel |].
    split; [exact (relays_bounded _ _ Hrel) |].
    split; [exact (relays_immediate _ _ Hrel) |].
    split; [exact (relays_writes_read _ _ Hrel) |].
    split; [rewrite Hwops, Hops1; reflexivity |].
    split; [exact Hbytes |].
    rewrite Htr, Hlogs. reflexivity.
Qed.

Lemma streamResponse_relay_witness :
  ls_steps (streamLoop
              (startLoop (WriteHeader (newResponseWriter true) 200) brokenStream
                         [EvRequestRaw "GET" "/containers/abc/logs" ∅]))
  = [ StepRead "line 1" None; StepWrite "line 1"; StepFlush;
      StepRead "line 2" (Some (ReadFailed "reset")); StepWrite "line 2"; StepFlush;
      StepLog "Stream error: reset" ] /\
  w_ops (fst (handleProxy (fun _ _ => false) (fun k => k) streamingServer
                (newResponseWriter true)
                (sampleRequest "GET" "/containers/abc/logs" ∅ ∅) []))
  = [OpWrite "line 1"; OpFlush; OpWrite "line 2"; OpFlush] /\
  snd (handleProxy (fun _ _ => false) (fun k => k) streamingServer
         (newResponseWriter true)
         (sampleRequest "GET" "/containers/abc/logs" ∅ ∅) [])
  = [ EvRequestRaw "GET" "/containers/abc/logs" ∅;
      EvLog "Stream error: reset"; EvBodyClose ].
Proof.
  destruct (streamResponse_relay (fun _ _ => false) (fun k => k) streamingServer
              (newResponseWriter true)
              (sampleRequest "GET" "/containers/abc/logs" ∅ ∅) []
              {| StatusCode := 200; Resp_Header := ∅; Resp_Body := brokenStream |}
              eq_refl eq_refl eq_refl)
    as (Hproxy & Hrel & _ & _ & _ & Hops & _ & Htr).
  assert (Hsteps : relays brokenStream
            [ StepRead "line 1" None; StepWrite "line 1"; StepFlush;
              StepRead "line 2" (Some (ReadFailed "reset")); StepWrite "line 2"; StepFlush;
              StepLog "Stream error: reset" ]).
  { apply (relays_next brokenStream
             [ {| rs_data := "line 2"; rs_err := Some (ReadFailed "reset") |} ] "line 1");
      [reflexivity |].
    apply (relays_last _ [] "line 2" (ReadFailed "reset")). reflexivity. }
  pose proof (relays_functional _ _ _ Hrel Hsteps) as Heq.
  split; [exact Heq |].
  rewrite Hproxy. cbn [fst snd]. rewrite Hops, Htr, Heq. split; reflexivity.
Defined.

Section CopyHeaders.

Variable canon : string -> string.

Lemma Header_Add_values (h : Header) (key c : string) (values : list string) :
  default [] (foldl (fun h value => Header_Add canon h key value) h values !! c) =
  default [] (h !! c) ++ (if decide (canon key = c) then values else []).
Proof.
  revert h. induction values as [|v values IH]; intros h.
  - simpl. destruct (decide (canon key = c)); rewrite app_nil_r; reflexivity.
  - change (foldl (fun h value => Header_Add canon h key value) h (v :: values))
      with (foldl (fun h value => Header_Add canon h key value) (Header_Add canon h key v) values).
    rewrite IH. unfold Header_Add. rewrite lookup_insert.
    destruct (decide (canon key = c)) as [-> | Hne]; simpl.
    + rewrite <- app_assoc. reflexivity.
    + reflexivity.
Qed.

Lemma copyEntry_values (h : Header) (key c : string) (values : list string) :
  default [] (copyEntry canon h (key, values) !! c) =
  default [] (h !! c) ++ (if decide (canon key = c) then values else []).
Proof. apply Header_Add_values. Qed.

Lemma copyHeaders_extends (entries : list (string * list string)) (h : Header) (c : string) :
  exists extra, default [] (copyHeaders canon entries h !! c) = default [] (h !! c) ++ extra.
Proof.
  revert h. induction entries as [|[k vs] rest IH]; intros h.
  - exists []. simpl. rewrite app_nil_r. reflexivity.
  - change (copyHeaders canon ((k, vs) :: rest) h)
      with (copyHeaders canon rest (copyEntry canon h (k, vs))).
    destruct (IH (copyEntry canon h (k, vs))) as [extra ->].
    rewrite copyEntry_values, <- app_assoc. eexists. reflexivity.
Qed.

(** Every value of every name is appended under the canonical form of the
    name, the values of one name next to each other and in their order. *)
Lemma copyHeaders_contains (entries : list (string * list string)) (h : Header)
      (key : string) (values : list string) :
  (key, values) ∈ entries ->
  exists pre post,
    default [] (copyHeaders canon entries h !! canon key) = pre ++ values ++ post.
Proof.
  revert h. induction entries as [|[k vs] rest IH]; intros h Hin.
  - apply elem_of_nil in Hin. contradiction.
  - change (copyHeaders canon ((k, vs) :: rest) h)
      with (copyHeaders canon rest (copyEntry canon h (k, vs))).
    apply elem_of_cons in Hin as [[= <- <-] | Hin].
    + destruct (copyHeaders_extends rest (copyEntry canon h (key, values)) (canon key))
        as [extra ->].
      rewrite copyEntry_values. rewrite decide_True by reflexivity.
      exists (default [] (h !! canon key)), extra. rewrite <- app_assoc. reflexivity.
    + apply IH. exact Hin.
Qed.

End CopyHeaders.

(** C2. Whatever header set a request carries, the map [handleProxy]
    sends to the daemon holds no hop-by-hop name: none that
    [isHopByHopHeader] accepts, so none of the eight names of the table in
    any letter case. Every other header is forwarded, with its first value;
    a header is a name with at least one value, as [net/http] reads them
    from a request, so that when every name of [r.Header] has a value every
    name that is not hop-by-hop is in the map sent. *)
Theorem handleProxy_strips_hop_by_hop
        (fold : string -> string -> bool) (canon : string -> string)
        (s : Server) (w : ResponseWriter) (r : Request) (tr : list Event) :
  exists (headers : gmap string string) (rest : list Event),
    snd (handleProxy fold canon s w r tr)
      = tr ++ EvRequestRaw (Method r) (URL_RequestURI r) headers :: rest /\
    (forall key, isHopByHopHeader fold key = true -> headers !! key = None) /\
    (forall key h, In h hopByHop -> eq_ignore_case key h -> headers !! key = None) /\
    (forall key v vs, Req_Header r !! key = Some (v :: vs) ->
       isHopByHopHeader fold key = false -> headers !! key = Some v) /\
    ((forall key vs, Req_Header r !! key = Some vs -> vs <> []) ->
     forall key, is_Some (Req_Header r !! key) ->
       isHopByHopHeader fold key = false -> is_Some (headers !! key)).
Proof.
  destruct (handleProxy_calls_daemon fold canon s w r tr) as [rest Hrest].
  exists (forwardHeaders fold (map_to_list (Req_Header r))), rest.
  split; [exact Hrest |].
  assert (Hhop : forall key, isHopByHopHeader fold key = true ->
            forwardHeaders fold (map_to_list (Req_Header r)) !! key = None).
  { intros key Hk. rewrite (forwardHeaders_lookup fold (Req_Header r)) by reflexivity.
    unfold forwarded_value. rewrite Hk. destruct (Req_Header r !! key); reflexivity. }
  assert (Hfwd : forall key v vs, Req_Header r !! key = Some (v :: vs) ->
            isHopByHopHeader fold key = false ->
            forwardHeaders fold (map_to_list (Req_Header r)) !! key = Some v).
  { intros key v vs Hl Hk. rewrite (forwardHeaders_lookup fold (Req_Header r)) by reflexivity.
    rewrite Hl. unfold forwarded_value. simpl. rewrite Hk. reflexivity. }
  split; [exact Hhop |]. split; [| split; [exact Hfwd |]].
  - intros key h Hin Heq. apply Hhop. eapply isHopByHopHeader_fold; eauto.
  - intros Hvalues key [vs Hl] Hk. destruct vs as [|v vs].
    + destruct (Hvalues key [] Hl). reflexivity.
    + exists v. exact (Hfwd key v vs Hl Hk).
Qed.

Lemma handleProxy_strips_hop_by_hop_witness :
  exists (headers : gmap string string) (rest : list Event),
    snd (handleProxy (fun _ _ => false) (fun k => k) sampleServer (newResponseWriter true)
           (sampleRequest "GET" "/containers/json" sampleHeaders ∅) [])
      = [] ++ EvRequestRaw "GET" "/containers/json" headers :: rest /\
    headers !! "Connection" = None /\
    headers !! "Accept" = Some "text/plain".
Proof.
  destruct (handleProxy_strips_hop_by_hop (fun _ _ => false) (fun k => k) sampleServer
              (newResponseWriter true)
              (sampleRequest "GET" "/containers/json" sampleHeaders ∅) [])
    as [headers [rest [Htr [Hhop [_ [Hfwd _]]]]]].
  exists headers, rest. split; [exact Htr |]. split.
  - apply Hhop. reflexivity.
  - apply (Hfwd "Accept" "text/plain" ["text/html"]); reflexivity.
Defined.

(** C9. Of a request header with several values only the first is
    forwarded: the map sent to the daemon holds one value per name, and
    each value it holds is the first value of that name in the request. In
    the other direction every value of every header of the daemon's reply,
    hop-by-hop or not, is added to the client's reply under the canonical
    form of its name. *)
Theorem handleProxy_header_values
        (fold : string -> string -> bool) (canon : string -> string)
        (s : Server) (w : ResponseWriter) (r : Request) (tr : list Event) :
  (exists (headers : gmap string string) (rest : list Event),
      snd (handleProxy fold canon s w r tr)
        = tr ++ EvRequestRaw (Method r) (URL_RequestURI r) headers :: rest /\
      (forall key v vs, Req_Header r !! key = Some (v :: vs) ->
         isHopByHopHeader fold key = false -> headers !! key = Some v) /\
      (forall key x, headers !! key = Some x ->
         exists vs, Req_Header r !! key = Some (x :: vs)))
  /\
  (forall (resp : Response) (key : string) (values : list string),
      daemon_call fold s r = inl resp ->
      Resp_Header resp !! key = Some values ->
      exists pre post,
        default [] (w_header (fst (handleProxy fold canon s w r tr)) !! canon key)
        = pre ++ values ++ post).
Proof.
  split.
  - destruct (handleProxy_calls_daemon fold canon s w r tr) as [rest Hrest].
    exists (forwardHeaders fold (map_to_list (Req_Header r))), rest.
    split; [exact Hrest |]. split.
    + intros key v vs Hl Hk. rewrite (forwardHeaders_lookup fold (Req_Header r)) by reflexivity.
      rewrite Hl. unfold forwarded_value. simpl. rewrite Hk. reflexivity.
    + intros key x. rewrite (forwardHeaders_lookup fold (Req_Header r)) by reflexivity.
      destruct (Req_Header r !! key) as [values |]; simpl; [| discriminate].
      unfold forwarded_value. destruct (isHopByHopHeader fold key); [discriminate |].
      destruct values as [|v vs]; simpl; [discriminate |].
      intros [= ->]. exists vs. reflexivity.
  - intros resp key values Hcall Hl.
    rewrite (handleProxy_reply_header fold canon s w r tr resp Hcall).
    apply copyHeaders_contains. apply elem_of_map_to_list. exact Hl.
Qed.

Lemma handleProxy_header_values_witness :
  exists pre post,
    default [] (w_header (fst (handleProxy (fun _ _ => false) (fun k => k) answeringServer
                                 (newResponseWriter true)
                                 (sampleRequest "GET" "/containers/json" sampleHeaders ∅) []))
                  !! "Connection")
    = pre ++ ["keep-alive"] ++ post.
Proof.
  exact (proj2 (handleProxy_header_values (fun _ _ => false) (fun k => k) answeringServer
                  (newResponseWriter true)
                  (sampleRequest "GET" "/containers/json" sampleHeaders ∅) [])
               sampleReply "Connection" ["keep-alive"] eq_refl eq_refl).
Defined.

(** C4. When the daemon call fails, [handleProxy] answers 502 Bad Gateway
    with a body that carries the error's message, logs the failure and
    returns; no reply body was opened, so there is none to release. When
    the call succeeds the reply body is closed as the handler returns,
    once, whichever way the copy or the relay ended. *)
Theorem handleProxy_bad_gateway
        (fold : string -> string -> bool) (canon : string -> string)
        (s : Server) (flusher : bool) (r : Request) (tr : list Event) :
  match daemon_call fold s r with
  | inr err =>
      w_status (fst (handleProxy fold canon s (newResponseWriter flusher) r tr))
        = Some StatusBadGateway /\
      w_ops (fst (handleProxy fold canon s (newResponseWriter flusher) r tr))
        = [OpWrite ("Docker request failed: " +:+ err +:+ newline)] /\
      GoStrings.occurs_in err
        (body_bytes (w_ops (fst (handleProxy fold canon s (newResponseWriter flusher) r tr)))) /\
      snd (handleProxy fold canon s (newResponseWriter flusher) r tr)
        = tr ++ [ EvRequestRaw (Method r) (URL_RequestURI r)
                    (forwardHeaders fold (map_to_list (Req_Header r)));
                  EvLog ("Docker request failed: " +:+ err) ]
  | inl resp =>
      exists extra,
        snd (handleProxy fold canon s (newResponseWriter flusher) r tr)
          = tr ++ extra ++ [EvBodyClose] /\
        EvBodyClose ∉ extra
  end.
Proof.
  unfold daemon_call, handleProxy.
  destruct (RequestRaw _ _ _ _ _) as [resp | err].
  - match goal with |- context [if ?c then ?a else ?b] => destruct c end.
    + match goal with |- context [streamResponse ?w ?b ?t] =>
        destruct (streamResponse_trace w b t) as [extra [He Hn]];
        destruct (streamResponse w b t) as [w2 tr2] end.
      simpl in *. subst tr2.
      match goal with |- context [EvRequestRaw ?m ?u ?h] =>
        exists (EvRequestRaw m u h :: extra) end.
      split; [rewrite <- !app_assoc; reflexivity |].
      intros Hin. apply elem_of_cons in Hin as [Hin | Hin]; [discriminate | contradiction].
    + cbv beta iota zeta delta [snd].
      match goal with |- context [EvRequestRaw ?m ?u ?h] =>
        exists [EvRequestRaw m u h] end.
      split; [rewrite <- !app_assoc; reflexivity |].
      intros Hin. apply list_elem_of_singleton in Hin. discriminate.
  - simpl. rewrite <- !app_assoc. split; [reflexivity |]. split; [reflexivity |].
    split; [| reflexivity].
    exists "Docker request failed: ", newline. rewrite string_app_nil_r. reflexivity.
Qed.

Lemma handleProxy_bad_gateway_witness :
  w_status (fst (handleProxy (fun _ _ => false) (fun k => k) sampleServer
                   (newResponseWriter true)
                   (sampleRequest "GET" "/containers/json" sampleHeaders ∅) []))
  = Some StatusBadGateway.
Proof.
  exact (proj1 (handleProxy_bad_gateway (fun _ _ => false) (fun k => k) sampleServer true
                  (sampleRequest "GET" "/containers/json" sampleHeaders ∅) [])).
Defined.

(** ** The token gate and the health endpoint *)

Lemma http_Error_fresh (canon : string -> string) (flusher : bool) (msg : string) (code : Z) :
  w_status (http_Error canon (newResponseWriter flusher) msg code) = Some code /\
  w_ops (http_Error canon (newResponseWriter flusher) msg code) = [OpWrite (msg +:+ newline)].
Proof. split; reflexivity. Qed.

(** C3. With a token configured, a request for any path other than
    /_hawser/health whose X-Hawser-Token header is not the token and whose
    token query parameter is not the token either is answered 401
    Unauthorized by [authMiddleware], and the wrapped handler is not run: served by
    the whole handler chain, the request reaches neither the proxy nor the
    daemon. A request for /_hawser/health goes to the wrapped handler
    whatever token it carries or lacks. *)
Theorem authMiddleware_gate
        (fold : string -> string -> bool) (canon : string -> string) (elapsed : string)
        (own : Request -> option MuxReply) (s : Server) (flusher : bool) (r : Request) :
  (Token (cfg s) <> EmptyString ->
   URL_Path r <> "/_hawser/health" ->
   Header_Get canon (Req_Header r) "X-Hawser-Token" <> Token (cfg s) ->
   Values_Get (URL_Query r) "token" <> Token (cfg s) ->
   (forall (next : Handler) (w : ResponseWriter) (tr : list Event),
      authMiddleware canon s next w r tr
      = (http_Error canon w "Unauthorized" StatusUnauthorized, tr)) /\
   w_status (fst (serve fold canon elapsed own s flusher r)) = Some StatusUnauthorized /\
   w_ops (fst (serve fold canon elapsed own s flusher r)) = [OpWrite ("Unauthorized" +:+ newline)] /\
   snd (serve fold canon elapsed own s flusher r)
     = [ EvLog ("--> " +:+ Method r +:+ " " +:+ URL_Path r);
         EvLog ("<-- " +:+ Method r +:+ " " +:+ URL_Path r +:+ " (" +:+ elapsed +:+ ")") ])
  /\
  (URL_Path r = "/_hawser/health" ->
   forall (next : Handler) (w : ResponseWriter) (tr : list Event),
     authMiddleware canon s next w r tr = next w r tr).
Proof.
  split.
  - intros Htok Hpath Hhdr Hqry.
    assert (Hgate : forall (next : Handler) (w : ResponseWriter) (tr : list Event),
               authMiddleware canon s next w r tr
               = (http_Error canon w "Unauthorized" StatusUnauthorized, tr)).
    { intros next w tr. unfold authMiddleware.
      apply String.eqb_neq in Hpath. rewrite Hpath.
      apply String.eqb_neq in Htok. rewrite Htok. simpl.
      destruct (String.eqb (Header_Get canon (Req_Header r) "X-Hawser-Token") EmptyString).
      - apply String.eqb_neq in Hqry. rewrite Hqry. reflexivity.
      - apply String.eqb_neq in Hhdr. rewrite Hhdr. reflexivity. }
    split; [exact Hgate |].
    unfold serve, Run_handler, loggingMiddleware. rewrite Hgate.
    repeat split.
  - intros Hpath next w tr. unfold authMiddleware.
    apply String.eqb_eq in Hpath. rewrite Hpath. reflexivity.
Qed.

Lemma authMiddleware_gate_witness :
  w_status (fst (serve (fun _ _ => false) (fun k => k) "1ms" (fun _ => None) sampleServer true
                   (sampleRequest "GET" "/containers/json"
                      {[ "X-Hawser-Token" := ["wrong"] ]} {[ "token" := ["guess"] ]})))
  = Some StatusUnauthorized.
Proof.
  refine (proj1 (proj2 (proj1 (authMiddleware_gate (fun _ _ => false) (fun k => k) "1ms"
            (fun _ => None)
            sampleServer true
            (sampleRequest "GET" "/containers/json"
               {[ "X-Hawser-Token" := ["wrong"] ]} {[ "token" := ["guess"] ]}))
          _ _ _ _))); vm_compute; discriminate.
Defined.

(** The body of a healthy reply, byte for byte. *)
Lemma healthyBody_bytes :
  bytes healthyBody =
  [123; 34; 115; 116; 97; 116; 117; 115; 34; 58; 34; 104; 101; 97; 108; 116; 104; 121; 34; 125]%N.
Proof. reflexivity. Qed.

(** C7. A request for /_hawser/health, with or without a token and
    whatever token the server is configured with, is answered 200 with the
    body [healthyBody] when the daemon's Ping succeeds, and 503 with a body
    that contains the error's text when Ping fails; so the status is 200
    exactly when Ping succeeds. *)
Theorem handleHealth_status
        (fold : string -> string -> bool) (canon : string -> string) (elapsed : string)
        (own : Request -> option MuxReply) (s : Server) (flusher : bool) (r : Request) :
  URL_Path r = "/_hawser/health" ->
  match Ping (dockerClient s) with
  | None =>
      w_status (fst (serve fold canon elapsed own s flusher r)) = Some StatusOK /\
      w_ops (fst (serve fold canon elapsed own s flusher r)) = [OpWrite healthyBody]
  | Some err =>
      w_status (fst (serve fold canon elapsed own s flusher r)) = Some StatusServiceUnavailable /\
      w_ops (fst (serve fold canon elapsed own s flusher r))
        = [OpWrite ("Docker unhealthy: " +:+ err +:+ newline)] /\
      GoStrings.occurs_in err (body_bytes (w_ops (fst (serve fold canon elapsed own s flusher r))))
  end /\
  (w_status (fst (serve fold canon elapsed own s flusher r)) = Some StatusOK
   <-> Ping (dockerClient s) = None).
Proof.
  intros Hpath.
  unfold serve, Run_handler, loggingMiddleware, authMiddleware, mux, handleHealth.
  rewrite Hpath. simpl.
  destruct (Ping (dockerClient s)) as [err |]; simpl.
  - split; [| split; discriminate].
    split; [reflexivity |]. split; [reflexivity |].
    exists "Docker unhealthy: ", newline. rewrite string_app_nil_r. reflexivity.
  - split; [split; reflexivity | split; reflexivity].
Qed.

Lemma handleHealth_status_witness :
  w_status (fst (serve (fun _ _ => false) (fun k => k) "1ms" (fun _ => None) sampleServer true
                   (sampleRequest "GET" "/_hawser/health" ∅ ∅)))
  = Some StatusOK.
Proof.
  exact (proj1 (proj1 (handleHealth_status (fun _ _ => false) (fun k => k) "1ms" (fun _ => None)
           sampleServer true (sampleRequest "GET" "/_hawser/health" ∅ ∅) eq_refl))).
Defined.

(** ** The message protocol: encoding, then decoding *)

Lemma dec_int_in_range (lo hi z : Z) :
  (lo <= z < hi)%Z -> protocol.dec_int lo hi (Some (protocol.JInt z)) = Some z.
Proof.
  intros [Hlo Hhi]. unfold protocol.dec_int.
  apply Z.leb_le in Hlo. apply Z.ltb_lt in Hhi. rewrite Hlo, Hhi. reflexivity.
Qed.

Lemma dec_int64_in_range (z : Z) :
  in_int64 z -> protocol.dec_int64 (Some (protocol.JInt z)) = Some z.
Proof. apply dec_int_in_range. Qed.

Lemma dec_uint64_in_range (z : Z) :
  in_uint64 z -> protocol.dec_uint64 (Some (protocol.JInt z)) = Some z.
Proof. apply dec_int_in_range. Qed.

#[local] Arguments protocol.rune_size : simpl never.

Lemma coerce_from_valid (s : string) (skip : nat) :
  protocol.valid_from skip s = true -> protocol.coerce_from skip s = s.
Proof.
  revert skip. induction s as [|c s IH]; intros skip; [reflexivity |].
  simpl. destruct skip as [|k].
  - destruct (protocol.rune_size (String c s)) as [|k]; [discriminate |].
    intros H. rewrite (IH k H). reflexivity.
  - intros H. rewrite (IH k H). reflexivity.
Qed.

(** A string that is UTF-8 text is written as it is. *)
Lemma coerceUTF8_valid (s : string) :
  protocol.ValidString s = true -> protocol.coerceUTF8 s = s.
Proof. apply coerce_from_valid. Qed.

#[local] Arguments protocol.coerceUTF8 : simpl never.
#[local] Arguments protocol.same_name : simpl never.

Lemma dec_strings_enc_strings (l : option (list string)) :
  utf8 (default [] l) ->
  protocol.dec_strings (Some (protocol.enc_strings l)) = Some l.
Proof.
  destruct l as [items |]; [| reflexivity]. intros Hv. simpl in Hv.
  assert (H : mapM (fun j => protocol.dec_string (Some j)) (map protocol.enc_string items)
              = Some items).
  { induction Hv as [|x items Hx Hv IH]; [reflexivity |].
    simpl in *. rewrite (coerceUTF8_valid x Hx), IH. reflexivity. }
  unfold protocol.dec_strings, protocol.enc_strings. rewrite H. reflexivity.
Qed.

Lemma dec_bytes_enc_bytes (d : option string) :
  protocol.dec_bytes (Some (protocol.enc_bytes d)) = Some d.
Proof. destruct d; reflexivity. Qed.

Lemma foldl_members_lookup (entries : list (string * string)) (acc : gmap string string) :
  NoDup entries.*1 ->
  exists m : gmap string string,
    foldl (fun acc kv =>
             m ← acc; s ← protocol.dec_string (Some (snd kv)); Some (<[fst kv := s]> m))
          (Some acc) (map (fun kv => (fst kv, protocol.JString (snd kv))) entries) = Some m /\
    forall k, m !! k = match (list_to_map entries : gmap string string) !! k with
                       | Some v => Some v
                       | None => acc !! k
                       end.
Proof.
  revert acc. induction entries as [|[k v] rest IH]; intros acc Hnd.
  - exists acc. split; [reflexivity |]. intros k.
    rewrite list_to_map_nil, lookup_empty. reflexivity.
  - apply NoDup_cons in Hnd as [Hk Hnd].
    destruct (IH (<[k := v]> acc) Hnd) as [m [Hm Hlook]].
    exists m. split; [exact Hm |]. intros k'. rewrite Hlook, list_to_map_cons.
    rewrite !lookup_insert.
    destruct (decide (k = k')) as [-> | Hne]; [| reflexivity].
    rewrite (not_elem_of_list_to_map_1 (M := gmap string) rest k' Hk). reflexivity.
Qed.

Lemma sorted_entries_Permutation (m : gmap string string) :
  protocol.sorted_entries m ≡ₚ map_to_list m.
Proof. apply merge_sort_Permutation. Qed.

Lemma dec_map_enc_map (m : gmap string string) :
  utf8_entries m ->
  protocol.dec_map (Some (protocol.enc_map m)) = Some (Some m).
Proof.
  intros Hv. unfold protocol.dec_map, protocol.enc_map.
  pose proof (sorted_entries_Permutation m) as Hperm.
  assert (Hnd : NoDup (protocol.sorted_entries m).*1).
  { rewrite Hperm. apply NoDup_fst_map_to_list. }
  assert (Hwritten : map (fun kv => (protocol.coerceUTF8 (fst kv), protocol.enc_string (snd kv)))
                         (protocol.sorted_entries m)
                     = map (fun kv => (fst kv, protocol.JString (snd kv)))
                           (protocol.sorted_entries m)).
  { apply map_ext_in. intros [k v] Hin. simpl.
    assert (Hkv : m !! k = Some v).
    { apply elem_of_map_to_list. rewrite <- Hperm. apply list_elem_of_In. exact Hin. }
    destruct (Hv k v Hkv) as [Hk Hval].
    unfold protocol.enc_string. rewrite (coerceUTF8_valid k Hk), (coerceUTF8_valid v Hval).
    reflexivity. }
  rewrite Hwritten.
  destruct (foldl_members_lookup (protocol.sorted_entries m) ∅ Hnd) as [m' [-> Hlook]].
  simpl. do 2 f_equal. apply map_eq. intros k.
  rewrite Hlook, (list_to_map_proper (M := gmap string) _ _ Hnd Hperm),
    list_to_map_to_list, lookup_empty.
  destruct (m !! k); reflexivity.
Qed.

#[local] Arguments protocol.dec_int64 : simpl never.
#[local] Arguments protocol.dec_uint64 : simpl never.
#[local] Arguments protocol.dec_strings : simpl never.
#[local] Arguments protocol.dec_bytes : simpl never.
#[local] Arguments protocol.dec_map : simpl never.
#[local] Arguments protocol.enc_strings : simpl never.
#[local] Arguments protocol.enc_bytes : simpl never.
#[local] Arguments protocol.enc_map : simpl never.

Ltac case_omitted :=
  repeat match goal with
         | |- context [String.eqb ?s EmptyString] =>
             destruct (String.eqb_spec s EmptyString); subst
         end.

(** The fields that are UTF-8 text are written as they are. *)
Ltac use_utf8 :=
  unfold utf8 in *;
  repeat match goal with
         | H : Forall _ (_ :: _) |- _ => apply Forall_cons_1 in H as [? H]
         | H : Forall _ [] |- _ => clear H
         end;
  unfold protocol.omit_string, protocol.enc_string;
  repeat match goal with
         | H : protocol.ValidString ?s = true |- _ =>
             rewrite ?(coerceUTF8_valid s H); clear H
         end.

(** Which members a decoder takes for a field is decided on the names. *)
Ltac eval_names :=
  repeat match goal with
         | |- context [protocol.same_name ?f ?k ?n] =>
             let b := eval vm_compute in (protocol.same_name f k n) in
             change (protocol.same_name f k n) with b
         end.

Ltac decode_step :=
  unfold protocol.member; simpl; eval_names; simpl;
  rewrite ?dec_bytes_enc_bytes;
  repeat match goal with
         | H : Forall _ (default [] ?l)
           |- context [protocol.dec_strings (Some (protocol.enc_strings ?l))] =>
             rewrite (dec_strings_enc_strings l H)
         | H : utf8_entries ?m
           |- context [protocol.dec_map (Some (protocol.enc_map ?m))] =>
             rewrite (dec_map_enc_map m H)
         | H : in_int64 ?z |- context [protocol.dec_int64 (Some (protocol.JInt ?z))] =>
             rewrite (dec_int64_in_range z H)
         | H : in_uint64 ?z |- context [protocol.dec_uint64 (Some (protocol.JInt ?z))] =>
             rewrite (dec_uint64_in_range z H)
         end;
  simpl.

Ltac decode_fields := repeat (progress decode_step); try reflexivity.

Section RoundTrip.

Variable compact : string -> option string.
Variable foldRunes : string -> string.

Lemma round_trip_Hello (m : protocol.HelloMessage) :
  utf8_Hello m ->
  protocol.unmarshalHello foldRunes (protocol.marshalHello m) = Some m.
Proof.
  destruct m. intros [Hs Hc]. simpl in Hs, Hc.
  unfold protocol.marshalHello, protocol.unmarshalHello. simpl.
  use_utf8. decode_fields.
Qed.

Lemma round_trip_Welcome (m : protocol.WelcomeMessage) :
  in_int64 (protocol.Welcome_EnvironmentID m) ->
  utf8_Welcome m ->
  protocol.unmarshalWelcome foldRunes (protocol.marshalWelcome m) = Some m.
Proof.
  destruct m. simpl. intros Hid Hs. unfold utf8_Welcome in Hs. simpl in Hs.
  unfold protocol.marshalWelcome, protocol.unmarshalWelcome. simpl.
  use_utf8. unfold protocol.omitempty. case_omitted; decode_fields.
Qed.

Lemma round_trip_Stream (m : protocol.StreamMessage) :
  utf8_Stream m ->
  protocol.unmarshalStream foldRunes (protocol.marshalStream m) = Some m.
Proof.
  destruct m. intros Hs. unfold utf8_Stream in Hs. simpl in Hs.
  unfold protocol.marshalStream, protocol.unmarshalStream. simpl.
  use_utf8. unfold protocol.omitempty. case_omitted; decode_fields.
Qed.

Lemma round_trip_StreamEnd (m : protocol.StreamEndMessage) :
  utf8_StreamEnd m ->
  protocol.unmarshalStreamEnd foldRunes (protocol.marshalStreamEnd m) = Some m.
Proof.
  destruct m. intros Hs. unfold utf8_StreamEnd in Hs. simpl in Hs.
  unfold protocol.marshalStreamEnd, protocol.unmarshalStreamEnd. simpl.
  use_utf8. unfold protocol.omitempty. case_omitted; decode_fields.
Qed.

Lemma round_trip_Ping (m : protocol.PingMessage) :
  in_int64 (protocol.Ping_Timestamp m) ->
  utf8 [protocol.Ping_Type m] ->
  protocol.unmarshalPing foldRunes (protocol.marshalPing m) = Some m.
Proof.
  destruct m. simpl. intros Hts Hs.
  unfold protocol.marshalPing, protocol.unmarshalPing. simpl.
  use_utf8. decode_fields.
Qed.

Lemma round_trip_Pong (m : protocol.PongMessage) :
  in_int64 (protocol.Pong_Timestamp m) ->
  utf8 [protocol.Pong_Type m] ->
  protocol.unmarshalPong foldRunes (protocol.marshalPong m) = Some m.
Proof.
  destruct m. simpl. intros Hts Hs.
  unfold protocol.marshalPong, protocol.unmarshalPong. simpl.
  use_utf8. decode_fields.
Qed.

Lemma round_trip_Error (m : protocol.ErrorMessage) :
  utf8_Error m ->
  protocol.unmarshalError foldRunes (protocol.marshalError m) = Some m.
Proof.
  destruct m. intros Hs. unfold utf8_Error in Hs. simpl in Hs.
  unfold protocol.marshalError, protocol.unmarshalError. simpl.
  use_utf8. unfold protocol.omitempty. case_omitted; decode_fields.
Qed.

Lemma kept_as_is (headers : option (gmap string string)) (body : option string) :
  written_as_is compact headers body ->
  kept_map headers = headers /\ kept_raw compact body = body.
Proof.
  intros [Hh Hb]. split.
  - destruct headers as [entries |]; [| reflexivity]. simpl.
    case_bool_decide; [subst; contradiction | reflexivity].
  - destruct body as [text |]; [| reflexivity]. simpl.
    destruct (Hb text eq_refl) as [Hne Hc].
    apply String.eqb_neq in Hne. rewrite Hne. exact Hc.
Qed.

Lemma round_trip_Request (m : protocol.RequestMessage) (j : protocol.json) :
  utf8_Request m ->
  protocol.marshalRequest compact m = Some j ->
  protocol.unmarshalRequest foldRunes j = Some (kept_Request compact m).
Proof.
  destruct m as [t id method path headers body streaming].
  intros [Hs Hm]. simpl in Hs, Hm. revert j.
  unfold protocol.marshalRequest, protocol.unmarshalRequest, kept_Request,
    protocol.omit_raw, protocol.omit_map, protocol.omitempty. simpl.
  use_utf8. intros j.
  destruct body as [text |]; simpl;
    [destruct (String.eqb text EmptyString); [| destruct (compact text); [| discriminate]] |];
    (destruct headers as [entries |]; simpl;
     [pose proof (Hm entries eq_refl) as He; case_bool_decide |]);
    simpl; intros [= <-]; decode_fields.
Qed.

Lemma round_trip_Response (m : protocol.ResponseMessage) (j : protocol.json) :
  in_int64 (protocol.Response_StatusCode m) ->
  utf8_Response m ->
  protocol.marshalResponse compact m = Some j ->
  protocol.unmarshalResponse foldRunes j = Some (kept_Response compact m).
Proof.
  destruct m as [t id status headers body]. simpl. intros Hstatus [Hs Hm].
  simpl in Hs, Hm. revert j.
  unfold protocol.marshalResponse, protocol.unmarshalResponse, kept_Response,
    protocol.omit_raw, protocol.omit_map, protocol.omitempty. simpl.
  use_utf8. intros j.
  destruct body as [text |]; simpl;
    [destruct (String.eqb text EmptyString); [| destruct (compact text); [| discriminate]] |];
    (destruct headers as [entries |]; simpl;
     [pose proof (Hm entries eq_refl) as He; case_bool_decide |]);
    simpl; intros [= <-]; decode_fields.
Qed.

Lemma round_trip_Metrics (m : protocol.MetricsMessage) (j : protocol.json) :
  in_int64 (protocol.Metrics_Timestamp m) ->
  wf_HostMetrics (protocol.Metrics_Metrics m) ->
  utf8 [protocol.Metrics_Type m] ->
  protocol.marshalMetrics m = Some j ->
  protocol.unmarshalMetrics foldRunes j = Some m.
Proof.
  destruct m as [t ts [cpu cores mt mu mf dt du df rx tx]]. simpl.
  intros Hts (Hcores & Hmt & Hmu & Hmf & Hdt & Hdu & Hdf & Hrx & Htx) Hs.
  unfold protocol.marshalMetrics, protocol.marshalHostMetrics. simpl in *.
  use_utf8.
  destruct (is_finite cpu); [| discriminate]. simpl. intros [= <-].
  unfold protocol.unmarshalMetrics, protocol.unmarshalHostMetrics. decode_fields.
Qed.

Lemma marshalMetrics_not_finite (m : protocol.MetricsMessage) :
  is_finite (protocol.CPUUsage (protocol.Metrics_Metrics m)) = false ->
  protocol.marshalMetrics m = None.
Proof.
  intros H. unfold protocol.marshalMetrics, protocol.marshalHostMetrics.
  rewrite H. reflexivity.
Qed.

End RoundTrip.

(** A byte that is not part of well-formed UTF-8 does not come back: an
    error text that is the single byte 0xff is decoded as U+FFFD. *)
Example invalid_byte_round_trip (foldRunes : string -> string) :
  protocol.unmarshalError foldRunes
    (protocol.marshalError
       (protocol.NewErrorMessage "7f3a" (String (ascii_of_N 255) EmptyString) EmptyString))
  = Some (protocol.NewErrorMessage "7f3a" protocol.RuneError EmptyString).
Proof.
  unfold protocol.marshalError, protocol.unmarshalError, protocol.omit_string,
    protocol.omitempty, protocol.NewErrorMessage. simpl.
  decode_fields.
Qed.

(** C6 (as amended). For each of the ten message structs, decoding what
    [json.Marshal] wrote gives back every field, the strings being UTF-8
    text and the numbers in the range of their Go type. Hello, Welcome,
    Stream, StreamEnd, Metrics, Ping, Pong and Error come back exactly, an
    omitted optional string as the empty string it was. A Request and a
    Response come back exactly when their headers and body are written as
    they are; otherwise an empty, non-nil headers map or body was left out
    and comes back nil, and a body comes back in the compacted form in
    which it was written. A Metrics message whose cpuUsage is NaN or
    infinite is not encoded at all. *)
Theorem protocol_round_trip (compact : string -> option string) (foldRunes : string -> string) :
  (forall m, utf8_Hello m ->
     protocol.unmarshalHello foldRunes (protocol.marshalHello m) = Some m) /\
  (forall m, in_int64 (protocol.Welcome_EnvironmentID m) -> utf8_Welcome m ->
     protocol.unmarshalWelcome foldRunes (protocol.marshalWelcome m) = Some m) /\
  (forall m j, utf8_Request m ->
     protocol.marshalRequest compact m = Some j ->
     protocol.unmarshalRequest foldRunes j = Some (kept_Request compact m) /\
     (written_as_is compact (protocol.Request_Headers m) (protocol.Request_Body m) ->
      protocol.unmarshalRequest foldRunes j = Some m)) /\
  (forall m j, in_int64 (protocol.Response_StatusCode m) -> utf8_Response m ->
     protocol.marshalResponse compact m = Some j ->
     protocol.unmarshalResponse foldRunes j = Some (kept_Response compact m) /\
     (written_as_is compact (protocol.Response_Headers m) (protocol.Response_Body m) ->
      protocol.unmarshalResponse foldRunes j = Some m)) /\
  (forall m, utf8_Stream m ->
     protocol.unmarshalStream foldRunes (protocol.marshalStream m) = Some m) /\
  (forall m, utf8_StreamEnd m ->
     protocol.unmarshalStreamEnd foldRunes (protocol.marshalStreamEnd m) = Some m) /\
  (forall m j, in_int64 (protocol.Metrics_Timestamp m) ->
     wf_HostMetrics (protocol.Metrics_Metrics m) ->
     utf8 [protocol.Metrics_Type m] ->
     protocol.marshalMetrics m = Some j ->
     protocol.unmarshalMetrics foldRunes j = Some m) /\
  (forall m, is_finite (protocol.CPUUsage (protocol.Metrics_Metrics m)) = false ->
     protocol.marshalMetrics m = None) /\
  (forall m, in_int64 (protocol.Ping_Timestamp m) -> utf8 [protocol.Ping_Type m] ->
     protocol.unmarshalPing foldRunes (protocol.marshalPing m) = Some m) /\
  (forall m, in_int64 (protocol.Pong_Timestamp m) -> utf8 [protocol.Pong_Type m] ->
     protocol.unmarshalPong foldRunes (protocol.marshalPong m) = Some m) /\
  (forall m, utf8_Error m ->
     protocol.unmarshalError foldRunes (protocol.marshalError m) = Some m).
Proof.
  split; [exact (round_trip_Hello foldRunes) |].
  split; [exact (round_trip_Welcome foldRunes) |].
  split.
  { intros m j Hs Hj. pose proof (round_trip_Request compact foldRunes m j Hs Hj) as Hrt.
    split; [exact Hrt |]. intros Has. rewrite Hrt.
    destruct (kept_as_is compact _ _ Has) as [Hh Hb].
    destruct m. unfold kept_Request. simpl in *. rewrite Hh, Hb. reflexivity. }
  split.
  { intros m j Hst Hs Hj.
    pose proof (round_trip_Response compact foldRunes m j Hst Hs Hj) as Hrt.
    split; [exact Hrt |]. intros Has. rewrite Hrt.
    destruct (kept_as_is compact _ _ Has) as [Hh Hb].
    destruct m. unfold kept_Response. simpl in *. rewrite Hh, Hb. reflexivity. }
  split; [exact (round_trip_Stream foldRunes) |].
  split; [exact (round_trip_StreamEnd foldRunes) |].
  split; [exact (round_trip_Metrics foldRunes) |].
  split; [exact marshalMetrics_not_finite |].
  split; [exact (round_trip_Ping foldRunes) |].
  split; [exact (round_trip_Pong foldRunes) |].
  exact (round_trip_Error foldRunes).
Qed.

Lemma protocol_round_trip_witness :
  protocol.unmarshalRequest (fun s => s)
    (protocol.JObject [ ("type", protocol.JString "request");
                        ("requestId", protocol.JString "7f3a");
                        ("method", protocol.JString "GET");
                        ("path", protocol.JString "/version");
                        ("body", protocol.JRaw "{}");
                        ("streaming", protocol.JBool false) ])
  = Some (sampleRequestMessage None (Some "{}")).
Proof.
  destruct (protocol_round_trip Some (fun s => s)) as (_ & _ & Hreq & _).
  refine (proj2 (Hreq (sampleRequestMessage None (Some "{}")) _ _ eq_refl) _).
  - split; [repeat constructor | intros entries [=]].
  - split; [discriminate |].
    intros text [= <-]. split; [discriminate | reflexivity].
Defined.

(** C6, as stated, at a request whose headers map is empty but not nil:
    whatever the compaction of raw messages and the folding of names do,
    the map is left out of the encoding and the decoded request has a nil
    map. *)
Lemma empty_headers_round_trip_counterexample :
  ~ exists (compact : string -> option string) (foldRunes : string -> string),
      protocol.marshalRequest compact (sampleRequestMessage (Some ∅) None)
        ≫= protocol.unmarshalRequest foldRunes
      = Some (sampleRequestMessage (Some ∅) None).
Proof.
  intros (compact & foldRunes & H). vm_compute in H. discriminate H.
Qed.

(** ** The type tag of a message *)

(** [ParseMessageType] reads from the encoding of a message the tag its
    [Type] field holds, as the encoder wrote it: the tag itself when it is
    UTF-8 text, as the constants are, so that for a message made by one of
    the constructors it is the constant of the variant. *)
Theorem ParseMessageType_marshal (compact : string -> option string)
        (foldRunes : string -> string) :
  (forall m, protocol.ParseMessageType foldRunes (protocol.marshalHello m)
             = Some (protocol.coerceUTF8 (protocol.Hello_Type m))) /\
  (forall m, protocol.ParseMessageType foldRunes (protocol.marshalWelcome m)
             = Some (protocol.coerceUTF8 (protocol.Welcome_Type m))) /\
  (forall m j, protocol.marshalRequest compact m = Some j ->
               protocol.ParseMessageType foldRunes j
               = Some (protocol.coerceUTF8 (protocol.Request_Type m))) /\
  (forall m j, protocol.marshalResponse compact m = Some j ->
               protocol.ParseMessageType foldRunes j
               = Some (protocol.coerceUTF8 (protocol.Response_Type m))) /\
  (forall m, protocol.ParseMessageType foldRunes (protocol.marshalStream m)
             = Some (protocol.coerceUTF8 (protocol.Stream_Type m))) /\
  (forall m, protocol.ParseMessageType foldRunes (protocol.marshalStreamEnd m)
             = Some (protocol.coerceUTF8 (protocol.StreamEnd_Type m))) /\
  (forall m j, protocol.marshalMetrics m = Some j ->
               protocol.ParseMessageType foldRunes j
               = Some (protocol.coerceUTF8 (protocol.Metrics_Type m))) /\
  (forall m, protocol.ParseMessageType foldRunes (protocol.marshalPing m)
             = Some (protocol.coerceUTF8 (protocol.Ping_Type m))) /\
  (forall m, protocol.ParseMessageType foldRunes (protocol.marshalPong m)
             = Some (protocol.coerceUTF8 (protocol.Pong_Type m))) /\
  (forall m, protocol.ParseMessageType foldRunes (protocol.marshalError m)
             = Some (protocol.coerceUTF8 (protocol.Error_Type m))) /\
  (forall t, protocol.ValidString t = true -> protocol.coerceUTF8 t = t) /\
  (forall id status headers body j,
      protocol.marshalResponse compact (protocol.NewResponseMessage id status headers body)
      = Some j ->
      protocol.ParseMessageType foldRunes j = Some protocol.TypeResponse) /\
  (forall id reason,
      protocol.ParseMessageType foldRunes
        (protocol.marshalStreamEnd (protocol.NewStreamEndMessage id reason))
      = Some protocol.TypeStreamEnd) /\
  (forall id msg code,
      protocol.ParseMessageType foldRunes
        (protocol.marshalError (protocol.NewErrorMessage id msg code))
      = Some protocol.TypeError).
Proof.
  assert (Hreq : forall m j, protocol.marshalRequest compact m = Some j ->
                   protocol.ParseMessageType foldRunes j
                   = Some (protocol.coerceUTF8 (protocol.Request_Type m))).
  { intros [t id method path headers body streaming] j.
    unfold protocol.marshalRequest, protocol.omit_raw, protocol.omit_map, protocol.omitempty.
    simpl.
    destruct body as [text |]; simpl;
      [destruct (String.eqb text EmptyString); [| destruct (compact text); [| discriminate]] |];
      (destruct headers as [entries |]; simpl; [case_bool_decide |]);
      simpl; intros [= <-];
      unfold protocol.ParseMessageType, protocol.unmarshalBase; decode_fields. }
  assert (Hresp : forall m j, protocol.marshalResponse compact m = Some j ->
                    protocol.ParseMessageType foldRunes j
                    = Some (protocol.coerceUTF8 (protocol.Response_Type m))).
  { intros [t id status headers body] j.
    unfold protocol.marshalResponse, protocol.omit_raw, protocol.omit_map, protocol.omitempty.
    simpl.
    destruct body as [text |]; simpl;
      [destruct (String.eqb text EmptyString); [| destruct (compact text); [| discriminate]] |];
      (destruct headers as [entries |]; simpl; [case_bool_decide |]);
      simpl; intros [= <-];
      unfold protocol.ParseMessageType, protocol.unmarshalBase; decode_fields. }
  assert (Hmet : forall m j, protocol.marshalMetrics m = Some j ->
                   protocol.ParseMessageType foldRunes j
                   = Some (protocol.coerceUTF8 (protocol.Metrics_Type m))).
  { intros [t ts h] j. unfold protocol.marshalMetrics. simpl.
    destruct (protocol.marshalHostMetrics h); simpl; [| discriminate].
    intros [= <-]. unfold protocol.ParseMessageType, protocol.unmarshalBase. decode_fields. }
  repeat apply conj; try assumption; try exact coerceUTF8_valid;
    try (intros id status headers body j Hj; exact (Hresp _ _ Hj));
    intros;
    try match goal with
        | m : protocol.HelloMessage |- _ => destruct m
        | m : protocol.WelcomeMessage |- _ => destruct m
        | m : protocol.StreamMessage |- _ => destruct m
        | m : protocol.StreamEndMessage |- _ => destruct m
        | m : protocol.PingMessage |- _ => destruct m
        | m : protocol.PongMessage |- _ => destruct m
        | m : protocol.ErrorMessage |- _ => destruct m
        end;
    unfold protocol.marshalHello, protocol.marshalWelcome, protocol.marshalStream,
      protocol.marshalStreamEnd, protocol.marshalPing, protocol.marshalPong,
      protocol.marshalError, protocol.NewStreamEndMessage, protocol.NewErrorMessage,
      protocol.omit_string, protocol.omitempty; simpl;
    repeat match goal with
           | |- context [String.eqb ?b EmptyString] => destruct (String.eqb b EmptyString)
           end;
    unfold protocol.ParseMessageType, protocol.unmarshalBase; decode_fields.
Qed.

Lemma ParseMessageType_marshal_witness :
  protocol.ParseMessageType (fun s => s)
    (protocol.JObject [ ("type", protocol.JString "response");
                        ("requestId", protocol.JString "7f3a");
                        ("statusCode", protocol.JInt 200) ])
  = Some protocol.TypeResponse.
Proof.
  destruct (ParseMessageType_marshal Some (fun s => s))
    as (_ & _ & _ & _ & _ & _ & _ & _ & _ & _ & _ & Hresp & _).
  exact (Hresp "7f3a" 200%Z None None _ eq_refl).
Defined.

(** * Further properties of the server *)

(** ** Requests the token gate lets through *)

(** A request is handed to the wrapped handler unchanged when no token is
    configured, when its X-Hawser-Token header is the configured token, or
    when that header is empty and its token query parameter is the
    configured token. *)
Theorem authMiddleware_admits
        (canon : string -> string) (s : Server) (next : Handler)
        (w : ResponseWriter) (r : Request) (tr : list Event) :
  admitted canon s r ->
  authMiddleware canon s next w r tr = next w r tr.
Proof.
  intros Hadm. unfold authMiddleware.
  destruct (String.eqb (URL_Path r) "/_hawser/health"); [reflexivity |].
  destruct (String.eqb_spec (Token (cfg s)) EmptyString) as [Hnone | Hsome]; [reflexivity |].
  simpl. destruct Hadm as [Hopen | [Hhdr | [Hempty Hqry]]].
  - contradiction.
  - rewrite Hhdr. apply String.eqb_neq in Hsome. rewrite Hsome, String.eqb_refl. reflexivity.
  - rewrite Hempty, Hqry. simpl. rewrite String.eqb_refl. reflexivity.
Qed.

Lemma authMiddleware_admits_witness :
  authMiddleware (fun k => k) sampleServer (handleHealth (fun k => k) sampleServer)
    (newResponseWriter true)
    (sampleRequest "GET" "/containers/json" ∅ {[ "token" := ["secret"] ]}) []
  = handleHealth (fun k => k) sampleServer (newResponseWriter true)
      (sampleRequest "GET" "/containers/json" ∅ {[ "token" := ["secret"] ]}) [].
Proof.
  apply (authMiddleware_admits (fun k => k) sampleServer).
  right. right. split; reflexivity.
Defined.

(** The query parameter is a fallback for an empty header only: with a
    token configured, a request whose X-Hawser-Token header is present and
    wrong is answered 401 on every path but the health endpoint, whatever
    its token query parameter says, and the wrapped handler is not run. *)
Theorem authMiddleware_header_precedence
        (canon : string -> string) (s : Server) (next : Handler)
        (w : ResponseWriter) (r : Request) (tr : list Event) :
  Token (cfg s) <> EmptyString ->
  URL_Path r <> "/_hawser/health" ->
  Header_Get canon (Req_Header r) "X-Hawser-Token" <> EmptyString ->
  Header_Get canon (Req_Header r) "X-Hawser-Token" <> Token (cfg s) ->
  authMiddleware canon s next w r tr
  = (http_Error canon w "Unauthorized" StatusUnauthorized, tr).
Proof.
  intros Htok Hpath Hset Hbad. unfold authMiddleware.
  apply String.eqb_neq in Hpath, Htok, Hset, Hbad.
  rewrite Hpath, Htok. simpl. rewrite Hset, Hbad. reflexivity.
Qed.

Lemma authMiddleware_header_precedence_witness :
  authMiddleware (fun k => k) sampleServer (handleHealth (fun k => k) sampleServer)
    (newResponseWriter true)
    (sampleRequest "GET" "/containers/json"
       {[ "X-Hawser-Token" := ["wrong"] ]} {[ "token" := ["secret"] ]}) []
  = (http_Error (fun k => k) (newResponseWriter true) "Unauthorized" StatusUnauthorized, []).
Proof.
  apply (authMiddleware_header_precedence (fun k => k) sampleServer); vm_compute; discriminate.
Defined.

(** ** The reply mirrors the daemon's *)

Lemma body_bytes_relay_ops (chunks : list string) :
  body_bytes (relay_ops chunks) = concat_str chunks.
Proof.
  induction chunks as [|c chunks IH]; [reflexivity |].
  simpl. rewrite IH. reflexivity.
Qed.

Lemma relay_status (w : ResponseWriter) (chunks : list string) (code : Z) :
  w_status w = Some code -> w_status (relay w chunks) = Some code.
Proof.
  revert w. induction chunks as [|c chunks IH]; intros w Hst; [exact Hst |].
  change (relay w (c :: chunks)) with (relay (Flush (Write w c)) chunks).
  apply IH. destruct w as [h st ops fl]. simpl in Hst. subst st. reflexivity.
Qed.

Lemma io_Copy_fields (w : ResponseWriter) (body : Reader) :
  w_ops (io_Copy w body) = w_ops w ++ [OpCopy (delivered body)] /\
  (forall code, w_status w = Some code -> w_status (io_Copy w body) = Some code).
Proof.
  destruct w as [h [st |] ops fl]; unfold io_Copy, add_op, WriteHeader; simpl;
    destruct (String.eqb (delivered body) EmptyString); simpl;
    (split; [reflexivity | intros code H; first [exact H | discriminate H]]).
Qed.

Lemma streamResponse_fields (w : ResponseWriter) (body : Reader) (tr : list Event) :
  body_bytes (w_ops (fst (streamResponse w body tr)))
    = body_bytes (w_ops w) +:+ delivered body /\
  (forall code, w_status w = Some code ->
     w_status (fst (streamResponse w body tr)) = Some code).
Proof.
  unfold streamResponse. destruct (negb (w_flusher w)).
  - cbv beta iota delta [fst].
    destruct (io_Copy_fields w body) as [Hops Hst]. rewrite Hops, body_bytes_app.
    simpl. rewrite string_app_nil_r. split; [reflexivity | exact Hst].
  - destruct (streamLoop_spec w body tr) as [chunks [_ [Hcat ->]]]. simpl.
    destruct (relay_fields w chunks) as [-> _].
    rewrite body_bytes_app, body_bytes_relay_ops, Hcat.
    split; [reflexivity | intros code; apply relay_status].
Qed.

(** Flushing changes how the body travels, never what travels: with or
    without an [http.Flusher], [streamResponse] adds to the reply body
    exactly the bytes the daemon's body delivers up to its end or first
    error, in order. *)
Theorem streamResponse_same_bytes (w : ResponseWriter) (body : Reader) (tr : list Event) :
  body_bytes (w_ops (fst (streamResponse w body tr)))
  = body_bytes (w_ops w) +:+ delivered body.
Proof. apply streamResponse_fields. Qed.

(** Served on a fresh writer, a request the daemon answers gets the
    daemon's status code and, as its body, exactly the bytes the daemon's
    body delivers, whether the request is classified as streaming or not
    and whether the writer can flush or not. *)
Theorem handleProxy_mirrors_reply
        (fold : string -> string -> bool) (canon : string -> string)
        (s : Server) (flusher : bool) (r : Request) (tr : list Event) (resp : Response) :
  daemon_call fold s r = inl resp ->
  w_status (fst (handleProxy fold canon s (newResponseWriter flusher) r tr))
    = Some (StatusCode resp) /\
  body_bytes (w_ops (fst (handleProxy fold canon s (newResponseWriter flusher) r tr)))
    = delivered (Resp_Body resp).
Proof.
  intros Hcall.
  rewrite (handleProxy_reply fold canon s (newResponseWriter flusher) r tr resp Hcall).
  cbv zeta.
  set (w1 := WriteHeader (set_header (newResponseWriter flusher) _) (StatusCode resp)).
  assert (Hst : w_status w1 = Some (StatusCode resp)) by reflexivity.
  assert (Hops : w_ops w1 = []) by reflexivity.
  destruct (isStreamingRequest (URL_Path r) (Method r)); cbn [fst snd].
  - match goal with |- context [streamResponse w1 ?b ?t] =>
      destruct (streamResponse_fields w1 b t) as [Hb Hs] end.
    rewrite Hb, Hops. split; [apply Hs; exact Hst | reflexivity].
  - destruct (io_Copy_fields w1 (Resp_Body resp)) as [Ho Hs].
    rewrite Ho, Hops. simpl. rewrite string_app_nil_r.
    split; [apply Hs; exact Hst | reflexivity].
Qed.

Lemma handleProxy_mirrors_reply_witness :
  w_status (fst (handleProxy (fun _ _ => false) (fun k => k) answeringServer
                   (newResponseWriter false)
                   (sampleRequest "GET" "/containers/abc/logs" sampleHeaders ∅) []))
    = Some 200%Z /\
  body_bytes (w_ops (fst (handleProxy (fun _ _ => false) (fun k => k) answeringServer
                            (newResponseWriter false)
                            (sampleRequest "GET" "/containers/abc/logs" sampleHeaders ∅) [])))
    = "ok".
Proof.
  exact (handleProxy_mirrors_reply (fun _ _ => false) (fun k => k) answeringServer false
           (sampleRequest "GET" "/containers/abc/logs" sampleHeaders ∅) [] sampleReply eq_refl).
Defined.

Lemma copyHeaders_values (canon : string -> string)
      (entries : list (string * list string)) (h : Header) (c : string) :
  default [] (copyHeaders canon entries h !! c) =
  default [] (h !! c)
  ++ flat_map (fun e => if decide (canon (fst e) = c) then snd e else []) entries.
Proof.
  revert h. induction entries as [|[k vs] rest IH]; intros h.
  - simpl. rewrite app_nil_r. reflexivity.
  - change (copyHeaders canon ((k, vs) :: rest) h)
      with (copyHeaders canon rest (copyEntry canon h (k, vs))).
    rewrite IH, copyEntry_values, <- app_assoc. reflexivity.
Qed.

Lemma canonical_entries_values (canon : string -> string)
      (entries : list (string * list string)) (c : string) :
  NoDup entries.*1 ->
  (forall e, e ∈ entries -> canon (fst e) = fst e) ->
  flat_map (fun e => if decide (canon (fst e) = c) then snd e else []) entries
  = default [] ((list_to_map entries : Header) !! c).
Proof.
  induction entries as [|[k vs] rest IH]; intros Hnd Hcan; [reflexivity |].
  apply NoDup_cons in Hnd as [Hk Hnd].
  assert (Hrest : forall e, e ∈ rest -> canon (fst e) = fst e).
  { intros e He. apply Hcan. apply elem_of_cons. right. exact He. }
  specialize (IH Hnd Hrest).
  assert (Hck : canon k = k) by (apply (Hcan (k, vs)); apply elem_of_cons; left; reflexivity).
  simpl. rewrite Hck, IH, lookup_insert.
  destruct (decide (k = c)) as [-> | Hne]; [| reflexivity].
  rewrite (not_elem_of_list_to_map_1 (M := gmap string) rest c Hk). simpl.
  apply app_nil_r.
Qed.

(** [Header().Add] only ever appends: when the names of the daemon's reply
    headers are in canonical form, the values the client's reply holds
    under any name are the values the writer held before, followed by the
    daemon's values for that name, in the daemon's order. On a fresh writer
    the reply headers are the daemon's. *)
Theorem handleProxy_reply_headers
        (fold : string -> string -> bool) (canon : string -> string)
        (s : Server) (w : ResponseWriter) (r : Request) (tr : list Event) (resp : Response) :
  daemon_call fold s r = inl resp ->
  canonical_names canon (Resp_Header resp) ->
  forall k : string,
    default [] (w_header (fst (handleProxy fold canon s w r tr)) !! k)
    = default [] (w_header w !! k) ++ default [] (Resp_Header resp !! k).
Proof.
  intros Hcall Hcan k.
  rewrite (handleProxy_reply_header fold canon s w r tr resp Hcall).
  rewrite copyHeaders_values. f_equal.
  rewrite canonical_entries_values.
  - rewrite list_to_map_to_list. reflexivity.
  - apply NoDup_fst_map_to_list.
  - intros [k' vs] He. apply elem_of_map_to_list in He. simpl.
    apply Hcan. rewrite He. eexists. reflexivity.
Qed.

Lemma handleProxy_reply_headers_witness :
  default [] (w_header (fst (handleProxy (fun _ _ => false) (fun k => k) answeringServer
                               (newResponseWriter true)
                               (sampleRequest "GET" "/containers/json" sampleHeaders ∅) []))
                !! "Set-Cookie")
  = default [] ((∅ : Header) !! "Set-Cookie") ++ default [] (Resp_Header sampleReply !! "Set-Cookie").
Proof.
  apply (handleProxy_reply_headers (fun _ _ => false) (fun k => k) answeringServer
           (newResponseWriter true)
           (sampleRequest "GET" "/containers/json" sampleHeaders ∅) [] sampleReply eq_refl).
  intros k _. reflexivity.
Defined.

(** ** One daemon call per request *)

Lemma daemon_calls_app (a b : list Event) :
  daemon_calls (a ++ b) = daemon_calls a ++ daemon_calls b.
Proof. apply List.filter_app. Qed.

Lemma authMiddleware_decides (canon : string -> string) (s : Server) (next : Handler)
      (w : ResponseWriter) (r : Request) (tr : list Event) :
  (URL_Path r = "/_hawser/health" \/ admitted canon s r ->
   authMiddleware canon s next w r tr = next w r tr) /\
  (URL_Path r <> "/_hawser/health" -> ~ admitted canon s r ->
   authMiddleware canon s next w r tr
   = (http_Error canon w "Unauthorized" StatusUnauthorized, tr)).
Proof.
  unfold authMiddleware, admitted.
  destruct (String.eqb_spec (URL_Path r) "/_hawser/health") as [Hp | Hp];
    [split; [reflexivity | contradiction] |].
  destruct (String.eqb_spec (Token (cfg s)) EmptyString) as [Ht | Ht]; simpl;
    [split; [reflexivity | intros _ Hn; exfalso; apply Hn; left; exact Ht] |].
  destruct (String.eqb_spec (Header_Get canon (Req_Header r) "X-Hawser-Token") EmptyString)
    as [He | He].
  - destruct (String.eqb_spec (Values_Get (URL_Query r) "token") (Token (cfg s)))
      as [Hq | Hq]; simpl.
    + split; [reflexivity | intros _ Hn; exfalso; apply Hn; right; right; split; assumption].
    + split; [| reflexivity].
      intros [? | [? | [Hh | [_ ?]]]]; try contradiction. congruence.
  - destruct (String.eqb_spec (Header_Get canon (Req_Header r) "X-Hawser-Token")
                              (Token (cfg s))) as [Hh | Hh]; simpl.
    + split; [reflexivity | intros _ Hn; exfalso; apply Hn; right; left; exact Hh].
    + split; [| reflexivity].
      intros [? | [? | [? | [? ?]]]]; contradiction.
Qed.

Lemma streamResponse_logs (w : ResponseWriter) (body : Reader) (tr : list Event) :
  exists extra, snd (streamResponse w body tr) = tr ++ extra /\ daemon_calls extra = [].
Proof.
  unfold streamResponse. destruct (negb (w_flusher w)).
  - exists []. simpl. rewrite app_nil_r. split; reflexivity.
  - destruct (streamLoop_spec w body tr) as [chunks [_ [_ ->]]]. simpl.
    eexists. split; [reflexivity |]. destruct (final_error body); reflexivity.
Qed.

Lemma handleProxy_single_call (fold : string -> string -> bool) (canon : string -> string)
      (s : Server) (w : ResponseWriter) (r : Request) (tr : list Event) :
  daemon_calls (snd (handleProxy fold canon s w r tr))
  = daemon_calls tr
    ++ [EvRequestRaw (Method r) (URL_RequestURI r)
          (forwardHeaders fold (map_to_list (Req_Header r)))].
Proof.
  destruct (daemon_call fold s r) as [resp | err] eqn:Hcall.
  - rewrite (handleProxy_reply fold canon s w r tr resp Hcall). cbv zeta.
    destruct (isStreamingRequest (URL_Path r) (Method r)); cbn [fst snd].
    + match goal with |- context [streamResponse ?a ?b ?t] =>
        destruct (streamResponse_logs a b t) as [extra [-> Hextra]] end.
      rewrite !daemon_calls_app, Hextra. simpl. rewrite ?app_nil_r. reflexivity.
    + rewrite !daemon_calls_app. simpl. rewrite ?app_nil_r. reflexivity.
  - unfold daemon_call in Hcall. unfold handleProxy. rewrite Hcall. cbn [fst snd].
    rewrite !daemon_calls_app. simpl. rewrite ?app_nil_r. reflexivity.
Qed.

(** Served by the handler chain, a request makes at most one call on the
    daemon and never repeats it: one Ping on the health path; on any other
    path nothing when the token gate refuses the request, otherwise one
    GetVersion on the info path, nothing when the mux answers the request
    by itself (a redirect to the canonical path), and on every request the
    mux routes to the proxy exactly one RequestRaw with the request's
    method, URI and forwarded headers, whether the daemon answers or
    fails. *)
Theorem serve_daemon_calls
        (fold : string -> string -> bool) (canon : string -> string) (elapsed : string)
        (own : Request -> option MuxReply) (s : Server) (flusher : bool) (r : Request) :
  (URL_Path r = "/_hawser/health" ->
   daemon_calls (snd (serve fold canon elapsed own s flusher r)) = [EvPing]) /\
  (URL_Path r <> "/_hawser/health" -> ~ admitted canon s r ->
   daemon_calls (snd (serve fold canon elapsed own s flusher r)) = []) /\
  (URL_Path r = "/_hawser/info" -> admitted canon s r ->
   daemon_calls (snd (serve fold canon elapsed own s flusher r)) = [EvGetVersion]) /\
  (URL_Path r <> "/_hawser/health" -> URL_Path r <> "/_hawser/info" -> admitted canon s r ->
   is_Some (own r) ->
   daemon_calls (snd (serve fold canon elapsed own s flusher r)) = []) /\
  (URL_Path r <> "/_hawser/health" -> URL_Path r <> "/_hawser/info" -> admitted canon s r ->
   own r = None ->
   daemon_calls (snd (serve fold canon elapsed own s flusher r))
   = [EvRequestRaw (Method r) (URL_RequestURI r)
        (forwardHeaders fold (map_to_list (Req_Header r)))]).
Proof.
  unfold serve, Run_handler, loggingMiddleware.
  destruct (authMiddleware_decides canon s (mux fold canon own s) (newResponseWriter flusher) r
              ([] ++ [EvLog ("--> " +:+ Method r +:+ " " +:+ URL_Path r)]))
    as [Hpass Hrej].
  repeat apply conj.
  - intros Hp. rewrite (Hpass (or_introl Hp)). unfold mux, handleHealth.
    rewrite Hp. simpl. destruct (Ping (dockerClient s)); reflexivity.
  - intros Hp Hn. rewrite (Hrej Hp Hn). reflexivity.
  - intros Hp Ha. rewrite (Hpass (or_intror Ha)). unfold mux, handleInfo.
    rewrite Hp. reflexivity.
  - intros Hh Hi Ha [reply Hown]. rewrite (Hpass (or_intror Ha)). unfold mux.
    apply String.eqb_neq in Hh, Hi. rewrite Hh, Hi, Hown. reflexivity.
  - intros Hh Hi Ha Hown. rewrite (Hpass (or_intror Ha)). unfold mux.
    apply String.eqb_neq in Hh, Hi. rewrite Hh, Hi, Hown.
    match goal with |- context [handleProxy ?f ?c ?s0 ?w0 ?r0 ?t0] =>
      pose proof (handleProxy_single_call f c s0 w0 r0 t0) as Hone;
      destruct (handleProxy f c s0 w0 r0 t0) as [w2 tr2] end.
    cbn [fst snd] in *. rewrite daemon_calls_app, Hone. reflexivity.
Qed.

Lemma serve_daemon_calls_witness :
  daemon_calls (snd (serve (fun _ _ => false) (fun k => k) "1ms" sampleMuxOwn sampleServer true
                       (sampleRequest "GET" "/containers/json"
                          {[ "X-Hawser-Token" := ["secret"] ]} ∅)))
  = [EvRequestRaw "GET" "/containers/json"
       (forwardHeaders (fun _ _ => false)
          (map_to_list ({[ "X-Hawser-Token" := ["secret"] ]} : Header)))] /\
  daemon_calls (snd (serve (fun _ _ => false) (fun k => k) "1ms" sampleMuxOwn sampleServer true
                       (sampleRequest "GET" "/containers//json"
                          {[ "X-Hawser-Token" := ["secret"] ]} ∅)))
  = [].
Proof.
  split.
  - refine (proj2 (proj2 (proj2 (proj2 (serve_daemon_calls (fun _ _ => false) (fun k => k)
              "1ms" sampleMuxOwn sampleServer true
              (sampleRequest "GET" "/containers/json"
                 {[ "X-Hawser-Token" := ["secret"] ]} ∅)))))
            _ _ _ _).
    + discriminate.
    + discriminate.
    + right. left. reflexivity.
    + reflexivity.
  - refine (proj1 (proj2 (proj2 (proj2 (serve_daemon_calls (fun _ _ => false) (fun k => k)
              "1ms" sampleMuxOwn sampleServer true
              (sampleRequest "GET" "/containers//json"
                 {[ "X-Hawser-Token" := ["secret"] ]} ∅)))))
            _ _ _ _).
    + discriminate.
    + discriminate.
    + right. left. reflexivity.
    + eexists. reflexivity.
Defined.

(** ** Classification under an API version prefix *)

Lemma Contains_prefixed (prefix s sub : string) :
  GoStrings.Contains s sub = true -> GoStrings.Contains (prefix +:+ s) sub = true.
Proof.
  rewrite !Contains_spec. intros [a [b ->]].
  exists (prefix +:+ a), b. rewrite string_app_assoc. reflexivity.
Qed.

Lemma HasSuffix_prefixed (prefix s suf : string) :
  GoStrings.HasSuffix s suf = true -> GoStrings.HasSuffix (prefix +:+ s) suf = true.
Proof.
  rewrite !HasSuffix_spec. intros [a ->].
  exists (prefix +:+ a). rewrite string_app_assoc. reflexivity.
Qed.

Lemma isStreamingRequest_orb (path method : string) :
  isStreamingRequest path method =
  (GoStrings.Contains path "/logs" && String.eqb method "GET")
  || GoStrings.Contains path "/attach"
  || (GoStrings.Contains path "/exec/" && GoStrings.Contains path "/start")
  || GoStrings.HasSuffix path "/events"
  || (GoStrings.Contains path "/build" && String.eqb method "POST")
  || ((GoStrings.Contains path "/images/create" || GoStrings.Contains path "/images/push")
      && String.eqb method "POST").
Proof.
  unfold isStreamingRequest.
  destruct (GoStrings.Contains path "/logs"), (GoStrings.Contains path "/attach"),
    (GoStrings.Contains path "/exec/"), (GoStrings.Contains path "/start"),
    (GoStrings.HasSuffix path "/events"), (GoStrings.Contains path "/build"),
    (GoStrings.Contains path "/images/create"), (GoStrings.Contains path "/images/push"),
    (String.eqb method "GET"), (String.eqb method "POST"); reflexivity.
Qed.

(** A path that classifies as streaming still does under any prefix, such
    as the API version segment of a Docker path: the tests are for
    substrings and for an ending, never for a beginning. *)
Theorem isStreamingRequest_prefixed (prefix path method : string) :
  isStreamingRequest path method = true ->
  isStreamingRequest (prefix +:+ path) method = true.
Proof.
  rewrite !isStreamingRequest_orb, !orb_true_iff, !andb_true_iff, !orb_true_iff.
  pose proof (Contains_prefixed prefix path) as Hc.
  pose proof (HasSuffix_prefixed prefix path) as Hs.
  intuition auto 10.
Qed.

Lemma isStreamingRequest_prefixed_witness :
  isStreamingRequest ("/v1.43" +:+ "/containers/abc/logs") "GET" = true.
Proof. exact (isStreamingRequest_prefixed "/v1.43" "/containers/abc/logs" "GET" eq_refl). Defined.

(** ** The info endpoint, and what reaches the daemon *)

Lemma serve_admitted (fold : string -> string -> bool) (canon : string -> string)
      (elapsed : string) (own : Request -> option MuxReply)
      (s : Server) (flusher : bool) (r : Request) :
  URL_Path r = "/_hawser/health" \/ admitted canon s r ->
  serve fold canon elapsed own s flusher r =
  (fst (mux fold canon own s (newResponseWriter flusher) r
          [EvLog ("--> " +:+ Method r +:+ " " +:+ URL_Path r)]),
   snd (mux fold canon own s (newResponseWriter flusher) r
          [EvLog ("--> " +:+ Method r +:+ " " +:+ URL_Path r)])
   ++ [EvLog ("<-- " +:+ Method r +:+ " " +:+ URL_Path r +:+ " (" +:+ elapsed +:+ ")")]).
Proof.
  intros Hok. unfold serve, Run_handler, loggingMiddleware.
  rewrite (proj1 (authMiddleware_decides canon s (mux fold canon own s)
                    (newResponseWriter flusher) r _) Hok).
  simpl. destruct (mux fold canon own s (newResponseWriter flusher) r _). reflexivity.
Qed.

(** The info endpoint needs the token like any proxied path, and then
    always answers 200 with one JSON object that holds the agent id, the
    agent name, the mode and the daemon's version, each value written as it
    is, between quotes; when the daemon does not answer GetVersion the
    reply is still 200 and the version reads unknown. *)
Theorem handleInfo_reply
        (fold : string -> string -> bool) (canon : string -> string) (elapsed : string)
        (own : Request -> option MuxReply) (s : Server) (flusher : bool) (r : Request) :
  URL_Path r = "/_hawser/info" ->
  admitted canon s r ->
  w_status (fst (serve fold canon elapsed own s flusher r)) = Some StatusOK /\
  w_header (fst (serve fold canon elapsed own s flusher r)) !! canon "Content-Type"
    = Some ["application/json"] /\
  exists body : string,
    w_ops (fst (serve fold canon elapsed own s flusher r)) = [OpWrite body] /\
    GoStrings.occurs_in (json_field "agentId" (AgentID (cfg s))) body /\
    GoStrings.occurs_in (json_field "agentName" (AgentName (cfg s))) body /\
    GoStrings.occurs_in (json_field "mode" "standard") body /\
    GoStrings.occurs_in
      (json_field "dockerVersion"
         match GetVersion (dockerClient s) with
         | Some version => version
         | None => "unknown"
         end) body.
Proof.
  intros Hp Ha. rewrite (serve_admitted fold canon elapsed own s flusher r (or_intror Ha)).
  unfold mux, handleInfo. rewrite Hp. cbn [fst snd String.eqb Ascii.eqb Bool.eqb].
  split; [reflexivity |]. split; [apply lookup_insert_eq |].
  eexists. split; [reflexivity |].
  repeat split.
  - exists "{". eexists. reflexivity.
  - exists ("{" +:+ json_field "agentId" (AgentID (cfg s)) +:+ ","). eexists.
    rewrite !string_app_assoc. reflexivity.
  - exists ("{" +:+ json_field "agentId" (AgentID (cfg s)) +:+ ","
            +:+ json_field "agentName" (AgentName (cfg s)) +:+ ","
            +:+ json_field "dockerVersion" (default "unknown" (GetVersion (dockerClient s)))
            +:+ ","), "}".
    rewrite !string_app_assoc. reflexivity.
  - exists ("{" +:+ json_field "agentId" (AgentID (cfg s)) +:+ ","
            +:+ json_field "agentName" (AgentName (cfg s)) +:+ ","). eexists.
    rewrite !string_app_assoc.
    destruct (GetVersion (dockerClient s)); reflexivity.
Qed.

Lemma handleInfo_reply_witness :
  w_status (fst (serve (fun _ _ => false) (fun k => k) "1ms" (fun _ => None) answeringServer true
                   (sampleRequest "GET" "/_hawser/info" ∅ ∅)))
  = Some StatusOK.
Proof.
  refine (proj1 (handleInfo_reply (fun _ _ => false) (fun k => k) "1ms" (fun _ => None)
                   answeringServer true
                   (sampleRequest "GET" "/_hawser/info" ∅ ∅) eq_refl _)).
  left. reflexivity.
Defined.

Lemma serve_proxy_calls (fold : string -> string -> bool) (canon : string -> string)
      (elapsed : string) (own : Request -> option MuxReply)
      (s : Server) (flusher : bool) (r : Request) :
  URL_Path r <> "/_hawser/health" -> URL_Path r <> "/_hawser/info" -> admitted canon s r ->
  own r = None ->
  daemon_calls (snd (serve fold canon elapsed own s flusher r))
  = [EvRequestRaw (Method r) (URL_RequestURI r)
       (forwardHeaders fold (map_to_list (Req_Header r)))].
Proof.
  intros Hh Hi Ha Hown.
  rewrite (serve_admitted fold canon elapsed own s flusher r (or_intror Ha)).
  unfold mux. apply String.eqb_neq in Hh, Hi. rewrite Hh, Hi, Hown. cbn [snd].
  rewrite daemon_calls_app, handleProxy_single_call. reflexivity.
Qed.

Lemma Header_Get_first (canon : string -> string) (h : Header) (key : string) :
  Header_Get canon h key <> EmptyString ->
  exists rest, h !! canon key = Some (Header_Get canon h key :: rest).
Proof.
  unfold Header_Get. destruct (h !! canon key) as [[| v rest] |]; try congruence.
  intros _. exists rest. reflexivity.
Qed.

Lemma token_header_not_hop_by_hop (fold : string -> string -> bool) :
  isHopByHopHeader fold "X-Hawser-Token" = false.
Proof. reflexivity. Qed.

(** The token header is not consumed by the gate: a request that was let
    in on its X-Hawser-Token header and that the mux routes to the proxy
    (it does not answer it by itself, as it does to redirect a path that is
    not canonical) reaches the daemon with that header, and so with the
    configured token, among the forwarded headers (the header name being in
    canonical form already). *)
Theorem serve_forwards_token
        (fold : string -> string -> bool) (canon : string -> string) (elapsed : string)
        (own : Request -> option MuxReply) (s : Server) (flusher : bool) (r : Request) :
  canon "X-Hawser-Token" = "X-Hawser-Token" ->
  Token (cfg s) <> EmptyString ->
  Header_Get canon (Req_Header r) "X-Hawser-Token" = Token (cfg s) ->
  URL_Path r <> "/_hawser/health" ->
  URL_Path r <> "/_hawser/info" ->
  own r = None ->
  exists headers : gmap string string,
    daemon_calls (snd (serve fold canon elapsed own s flusher r))
    = [EvRequestRaw (Method r) (URL_RequestURI r) headers] /\
    headers !! "X-Hawser-Token" = Some (Token (cfg s)).
Proof.
  intros Hc Ht Hg Hh Hi Hown.
  exists (forwardHeaders fold (map_to_list (Req_Header r))). split.
  - apply serve_proxy_calls; [assumption | assumption | | assumption].
    right. left. exact Hg.
  - destruct (Header_Get_first canon (Req_Header r) "X-Hawser-Token") as [rest Hl];
      [congruence |].
    rewrite Hc, Hg in Hl.
    rewrite (forwardHeaders_lookup fold (Req_Header r) _ "X-Hawser-Token"
               (reflexivity _)), Hl.
    unfold forwarded_value. rewrite token_header_not_hop_by_hop. reflexivity.
Qed.

Lemma serve_forwards_token_witness :
  exists headers : gmap string string,
    daemon_calls (snd (serve (fun _ _ => false) (fun k => k) "1ms" sampleMuxOwn sampleServer
                         true
                         (sampleRequest "GET" "/containers/json"
                            {[ "X-Hawser-Token" := ["secret"] ]} ∅)))
    = [EvRequestRaw "GET" "/containers/json" headers] /\
    headers !! "X-Hawser-Token" = Some "secret".
Proof.
  apply (serve_forwards_token (fun _ _ => false) (fun k => k) "1ms" sampleMuxOwn sampleServer
           true
           (sampleRequest "GET" "/containers/json" {[ "X-Hawser-Token" := ["secret"] ]} ∅)).
  - reflexivity.
  - discriminate.
  - reflexivity.
  - discriminate.
  - discriminate.
  - reflexivity.
Defined.

(** ** The wire format *)

Lemma distinct_names (names : list string) :
  bool_decide ("type" ∈ names /\ NoDup (map folded names)) = true ->
  "type" ∈ names /\ NoDup (map folded names).
Proof. intros H. apply bool_decide_eq_true in H. exact H. Qed.

Lemma folded_names (names : list string) :
  bool_decide (NoDup (map folded names)) = true -> NoDup (map folded names).
Proof. intros H. apply bool_decide_eq_true in H. exact H. Qed.

Ltac distinct_names :=
  unfold distinct_members, member_names; simpl;
  apply distinct_names; vm_compute; reflexivity.

(** Whatever the field values, and whichever optional members are left
    out, the encoding of a message of any of the ten structs (and of the
    metrics value inside a Metrics message) is an object that has a type
    member and no two members of one name, even when the case of letters
    is ignored: a decoder finds at most one member for each field. *)
Theorem marshal_distinct_members (compact : string -> option string) :
  (forall m, distinct_members (protocol.marshalHello m)) /\
  (forall m, distinct_members (protocol.marshalWelcome m)) /\
  (forall m j, protocol.marshalRequest compact m = Some j -> distinct_members j) /\
  (forall m j, protocol.marshalResponse compact m = Some j -> distinct_members j) /\
  (forall m, distinct_members (protocol.marshalStream m)) /\
  (forall m, distinct_members (protocol.marshalStreamEnd m)) /\
  (forall m j, protocol.marshalMetrics m = Some j -> distinct_members j) /\
  (forall h j, protocol.marshalHostMetrics h = Some j ->
               NoDup (map folded (member_names j))) /\
  (forall m, distinct_members (protocol.marshalPing m)) /\
  (forall m, distinct_members (protocol.marshalPong m)) /\
  (forall m, distinct_members (protocol.marshalError m)).
Proof.
  unfold protocol.marshalWelcome, protocol.marshalRequest, protocol.marshalResponse,
    protocol.marshalStream, protocol.marshalStreamEnd, protocol.marshalMetrics,
    protocol.marshalHostMetrics, protocol.marshalError, protocol.omit_raw,
    protocol.omit_map, protocol.omit_string, protocol.omitempty.
  repeat apply conj.
  - intros m. distinct_names.
  - intros m. case_omitted; distinct_names.
  - intros [t id method path headers body streaming] j. simpl.
    destruct body as [text |]; simpl;
      [destruct (String.eqb text EmptyString); [| destruct (compact text); [| discriminate]] |];
      (destruct headers as [entries |]; simpl; [case_bool_decide |]);
      simpl; intros [= <-]; distinct_names.
  - intros [t id status headers body] j. simpl.
    destruct body as [text |]; simpl;
      [destruct (String.eqb text EmptyString); [| destruct (compact text); [| discriminate]] |];
      (destruct headers as [entries |]; simpl; [case_bool_decide |]);
      simpl; intros [= <-]; distinct_names.
  - intros m. case_omitted; distinct_names.
  - intros m. case_omitted; distinct_names.
  - intros m j. destruct (is_finite _); [| discriminate]. simpl. intros [= <-].
    distinct_names.
  - intros h j. destruct (is_finite _); [| discriminate]. intros [= <-].
    unfold member_names. cbv beta iota. apply folded_names. vm_compute. reflexivity.
  - intros m. distinct_names.
  - intros m. distinct_names.
  - intros m. case_omitted; distinct_names.
Qed.

Lemma marshal_distinct_members_witness :
  distinct_members
    (protocol.JObject
       [ ("type", protocol.JString "request"); ("requestId", protocol.JString "7f3a");
         ("method", protocol.JString "GET"); ("path", protocol.JString "/version");
         ("streaming", protocol.JBool false) ]).
Proof.
  apply (proj1 (proj2 (proj2 (marshal_distinct_members (fun text => Some text))))
           (sampleRequestMessage None None)).
  reflexivity.
Defined.

(** The struct decoders do not look at the value of the type member, they
    ignore members that are not fields of their struct and leave a field
    without member at its zero value: the encoding of a ping decodes as a
    pong (with the type as it was written, ping for a message made by
    NewPingMessage), and the encoding of a stream end as an error message
    with an empty error text. Only ParseMessageType tells the variants
    apart. *)
Theorem decoders_accept_other_variants (foldRunes : string -> string) :
  (forall m, in_int64 (protocol.Ping_Timestamp m) ->
     protocol.unmarshalPong foldRunes (protocol.marshalPing m)
     = Some {| protocol.Pong_Type := protocol.coerceUTF8 (protocol.Ping_Type m);
               protocol.Pong_Timestamp := protocol.Ping_Timestamp m |}) /\
  (forall m, in_int64 (protocol.Pong_Timestamp m) ->
     protocol.unmarshalPing foldRunes (protocol.marshalPong m)
     = Some {| protocol.Ping_Type := protocol.coerceUTF8 (protocol.Pong_Type m);
               protocol.Ping_Timestamp := protocol.Pong_Timestamp m |}) /\
  (forall m,
     protocol.unmarshalError foldRunes (protocol.marshalStreamEnd m)
     = Some {| protocol.Error_Type := protocol.coerceUTF8 (protocol.StreamEnd_Type m);
               protocol.Error_RequestID := protocol.coerceUTF8 (protocol.StreamEnd_RequestID m);
               protocol.Error_Error := EmptyString;
               protocol.Error_Code := EmptyString |}) /\
  (forall ts, in_int64 ts ->
     protocol.unmarshalPong foldRunes (protocol.marshalPing (protocol.NewPingMessage ts))
     = Some {| protocol.Pong_Type := protocol.TypePing; protocol.Pong_Timestamp := ts |}).
Proof.
  assert (Hping : forall m, in_int64 (protocol.Ping_Timestamp m) ->
            protocol.unmarshalPong foldRunes (protocol.marshalPing m)
            = Some {| protocol.Pong_Type := protocol.coerceUTF8 (protocol.Ping_Type m);
                      protocol.Pong_Timestamp := protocol.Ping_Timestamp m |}).
  { intros [t ts]. simpl. intros Hts.
    unfold protocol.marshalPing, protocol.unmarshalPong. decode_fields. }
  repeat apply conj.
  - exact Hping.
  - intros [t ts]. simpl. intros Hts.
    unfold protocol.marshalPong, protocol.unmarshalPing. decode_fields.
  - intros [t id reason].
    unfold protocol.marshalStreamEnd, protocol.unmarshalError, protocol.omit_string,
      protocol.omitempty. simpl.
    case_omitted; decode_fields.
  - intros ts Hts. rewrite (Hping (protocol.NewPingMessage ts) Hts). reflexivity.
Qed.

Lemma decoders_accept_other_variants_witness :
  protocol.unmarshalPong (fun s => s)
    (protocol.marshalPing (protocol.NewPingMessage 1700000000))
  = Some {| protocol.Pong_Type := protocol.TypePing;
            protocol.Pong_Timestamp := 1700000000 |}.
Proof.
  apply (proj2 (proj2 (proj2 (decoders_accept_other_variants (fun s => s))))).
  unfold in_int64. simpl. lia.
Defined.

(** ** Every request is answered and logged *)

Lemma admitted_dec (canon : string -> string) (s : Server) (r : Request) :
  admitted canon s r \/ ~ admitted canon s r.
Proof.
  unfold admitted.
  destruct (decide (Token (cfg s) = EmptyString)) as [| Ht]; [tauto |].
  destruct (decide (Header_Get canon (Req_Header r) "X-Hawser-Token" = Token (cfg s)))
    as [| Hh]; [tauto |].
  destruct (decide (Header_Get canon (Req_Header r) "X-Hawser-Token" = EmptyString))
    as [He |]; [| tauto].
  destruct (decide (Values_Get (URL_Query r) "token" = Token (cfg s))); tauto.
Qed.


Lemma mux_extends_trace (fold : string -> string -> bool) (canon : string -> string)
      (own : Request -> option MuxReply)
      (s : Server) (w : ResponseWriter) (r : Request) (tr : list Event) :
  exists extra, snd (mux fold canon own s w r tr) = tr ++ extra.
Proof.
  unfold mux.
  destruct (String.eqb (URL_Path r) "/_hawser/health");
    [| destruct (String.eqb (URL_Path r) "/_hawser/info"); [| destruct (own r)]].
  - unfold handleHealth. destruct (Ping (dockerClient s)); eexists; reflexivity.
  - eexists. reflexivity.
  - exists []. rewrite app_nil_r. reflexivity.
  - destruct (handleProxy_calls_daemon fold canon s w r tr) as [rest ->].
    eexists. reflexivity.
Qed.


(** Logging wraps the token gate: every request, refused or served, leaves
    the arrow-in line as the first event of its trace and the arrow-out
    line as the last, whatever happens in between. *)
Theorem serve_logs_every_request
        (fold : string -> string -> bool) (canon : string -> string) (elapsed : string)
        (own : Request -> option MuxReply) (s : Server) (flusher : bool) (r : Request) :
  exists between : list Event,
    snd (serve fold canon elapsed own s flusher r)
    = EvLog ("--> " +:+ Method r +:+ " " +:+ URL_Path r)
      :: between
      ++ [EvLog ("<-- " +:+ Method r +:+ " " +:+ URL_Path r +:+ " (" +:+ elapsed +:+ ")")].
Proof.
  unfold serve, Run_handler, loggingMiddleware.
  assert (Hext : exists extra,
             snd (authMiddleware canon s (mux fold canon own s) (newResponseWriter flusher) r
                    ([] ++ [EvLog ("--> " +:+ Method r +:+ " " +:+ URL_Path r)]))
             = ([] ++ [EvLog ("--> " +:+ Method r +:+ " " +:+ URL_Path r)]) ++ extra).
  { destruct (authMiddleware_decides canon s (mux fold canon own s) (newResponseWriter flusher) r
                ([] ++ [EvLog ("--> " +:+ Method r +:+ " " +:+ URL_Path r)]))
      as [Hpass Hrej].
    destruct (decide (URL_Path r = "/_hawser/health")) as [Hh | Hh];
      [rewrite (Hpass (or_introl Hh)); apply mux_extends_trace |].
    destruct (admitted_dec canon s r) as [Ha | Hn];
      [rewrite (Hpass (or_intror Ha)); apply mux_extends_trace |].
    rewrite (Hrej Hh Hn). exists []. rewrite app_nil_r. reflexivity. }
  destruct Hext as [extra Hext].
  destruct (authMiddleware canon s (mux fold canon own s) (newResponseWriter flusher) r _)
    as [w2 tr2].
  cbn [snd] in *. subst tr2. exists extra. reflexivity.
Qed.
